(** * kube-arangodb: the per-deployment control loop and its read accessors

    A shallow embedding of
      - [pkg/deployment/deployment.go]: the [Deployment] actor, its event
        queue ([send]), its worker ([run]) and the status publication
        ([updateCRStatus], [failOnError], [reportFailedStatus]);
      - the accessors of [Deployment] consumed by [pkg/server]
        ([PodCount], [ReadyPodCount], [StorageClasses]).

    Go values are modelled as follows: [error] values that may be [nil] are
    [option error]; [int] is [Z] with two's-complement wrap-around at 64
    bits; [float64] is [spec_float] at precision 53; a buffered channel is
    the list of its queued elements (head = next to be received); a
    [chan struct{}] that is only ever closed is a [bool] (closed or not); a
    [select] is resolved by an explicit choice among its ready cases. *)

From Stdlib Require Import ZArith List String Ascii Bool Lia DecimalString.
From Stdlib Require Import Floats.SpecFloat.
From stdpp Require Import base option list gmap strings sorting.

Local Open Scope Z_scope.

(* ================================================================== *)
(** * Machine numbers *)

Module GoInt.

(** Go's [int] on a 64-bit platform. *)
Definition min_int : Z := - 2 ^ 63.
Definition max_int : Z := 2 ^ 63 - 1.

Definition wrap (x : Z) : Z := (x + 2 ^ 63) mod 2 ^ 64 - 2 ^ 63.

(** [count++] *)
Definition incr (x : Z) : Z := wrap (x + 1).

(** [len(xs)] *)
Definition len {A} (xs : list A) : Z := Z.of_nat (length xs).

End GoInt.

Module Float64.

Definition prec : Z := 53.
Definition emax : Z := 1024.

(** [float64(n)] for an integer [n] *)
Definition of_int (n : Z) : spec_float := binary_normalize prec emax n 0 false.

Definition mul (x y : spec_float) : spec_float := SFmul prec emax x y.

(** The constant [0.8] as a [float64]: the correctly rounded quotient
    of 8 by 10. *)
Definition c0_8 : spec_float := SFdiv prec emax (of_int 8) (of_int 10).

(** [int(f)]: truncation toward zero (finite values in range). *)
Definition to_int (f : spec_float) : Z :=
  match f with
  | S754_finite s m e =>
      let a := if (0 <=? e)%Z then Z.pos m * 2 ^ e else Z.pos m / 2 ^ (- e) in
      if s then - a else a
  | _ => 0
  end.

End Float64.

(* ================================================================== *)
(** * Errors *)

(** The classes into which the transport layer's errors fall. *)
Inductive ErrorClass : Type := NotFound | Conflict | Other.

(** Error values, kept as the expressions that build them:
    [StatusError] is what a client request returns, [Errorf0] is
    [fmt.Errorf(format)], [Errorf1] is [fmt.Errorf(format, a)] with one
    [%v] verb, and [WithStack] is an error decorated on its way up the
    call stack. *)
Inductive error : Type :=
| StatusError (reason : ErrorClass) (message : string)
| Errorf0 (format : string)
| Errorf1 (format : string) (a : error)
| WithStack (err : error).

(** [format] with its first [%v] verb replaced by [arg]. *)
Fixpoint format_v (format arg : string) : string :=
  match format with
  | String "%"%char (String "v"%char rest) => arg +:+ rest
  | String c rest => String c (format_v rest arg)
  | EmptyString => EmptyString
  end.

(** [err.Error()] *)
Fixpoint Error (e : error) : string :=
  match e with
  | StatusError _ message => message
  | Errorf0 format => format
  | Errorf1 format a => format_v format (Error a)
  | WithStack err => Error err
  end.

(** The helpers of [k8sutil] that classify an error, and the package's
    [maskAny]; their code is in other files, so they are parameters. *)
Class Util : Type := {
  maskAny : error -> error;
  IsNotFound : error -> bool;
  IsConflict : error -> bool
}.

(* ================================================================== *)
(** * The API types ([pkg/apis/.../v1alpha]) *)

Module api.

(** Modelled from the spec: the overall lifecycle state of a
    deployment ([Running], [Failed], ...); the Go type is a string. *)
Definition DeploymentState : Type := string.
Definition DeploymentStateRunning : DeploymentState := "Running".
Definition DeploymentStateFailed : DeploymentState := "Failed".

Inductive ConditionStatus : Type := ConditionTrue | ConditionFalse | ConditionUnknown.

Definition ConditionType : Type := string.
Definition ConditionTypeReady : ConditionType := "Ready".

(** Modelled from the spec: a timestamped condition flag of a member. *)
Record Condition : Type := {
  cType : ConditionType;
  cStatus : ConditionStatus;
  cLastUpdateTime : Z;
  cLastTransitionTime : Z
}.

Definition ConditionList : Type := list Condition.

(** Modelled from the spec: [Conditions.IsTrue(t)], defined in
    package [api], holds when the flag of type [t] is set to true;
    the first condition of that type decides. *)
Fixpoint IsTrue (l : ConditionList) (t : ConditionType) : bool :=
  match l with
  | [] => false
  | c :: rest =>
      if String.eqb (cType c) t
      then match cStatus c with ConditionTrue => true | _ => false end
      else IsTrue rest t
  end.

(** Modelled from the spec: one running unit of a role group. *)
Record MemberStatus : Type := {
  ID : string;
  PodName : string;
  PersistentVolumeClaimName : string;
  Conditions : ConditionList
}.

Definition MemberStatusList : Type := list MemberStatus.

(** Modelled from the spec: the role groups. *)
Inductive ServerGroup : Type :=
| ServerGroupSingle
| ServerGroupAgents
| ServerGroupDBServers
| ServerGroupCoordinators.

(** Modelled from the spec: the per-role-group lists of member
    records (agents, db-servers, single servers, coordinators). *)
Record DeploymentStatusMembers : Type := {
  Single : MemberStatusList;
  Agents : MemberStatusList;
  DBServers : MemberStatusList;
  Coordinators : MemberStatusList
}.

(** Modelled from the spec: [ForeachServerGroup(cb)], defined in
    package [api], calls [cb] on every role group with its member
    list and stops at the first error.  The callback is a closure over
    the caller's variables; their value is threaded as [S]. *)
Definition ForeachServerGroup {S : Type} (ds : DeploymentStatusMembers)
    (cb : ServerGroup -> MemberStatusList -> S -> S * option error)
    (s : S) : S * option error :=
  let '(s, e) := cb ServerGroupSingle (Single ds) s in
  match e with Some _ => (s, e) | None =>
  let '(s, e) := cb ServerGroupAgents (Agents ds) s in
  match e with Some _ => (s, e) | None =>
  let '(s, e) := cb ServerGroupDBServers (DBServers ds) s in
  match e with Some _ => (s, e) | None =>
  cb ServerGroupCoordinators (Coordinators ds) s
  end end end.

(** Modelled from the spec: the convergence state owned by the actor,
    with the lifecycle state, the last failure reason and the member
    records of every role group.  The Go value tells apart more than
    these fields show: a slice that is [nil] from one that is empty,
    two time stamps of one instant that differ in their location, and
    fields of the struct that the code embedded here never reads.
    [Rest] stands for all of that, so that two Go values are deeply
    equal exactly when the fields below, [Rest] included, agree. *)
Record DeploymentStatus : Type := {
  State : DeploymentState;
  Reason : string;
  Members : DeploymentStatusMembers;
  Rest : string
}.

Definition DeploymentMode : Type := string.

(** Modelled from the spec: the per-role configuration of the desired
    state; the storage class is a [*string] in Go. *)
Record ServerGroupSpec : Type := {
  Count : Z;
  StorageClassName : option string
}.

(** Modelled from the spec: the desired state (deployment mode,
    environment, image and per-role configuration). *)
Record DeploymentSpec : Type := {
  Mode : DeploymentMode;
  Environment : string;
  Image : string;
  specSingle : ServerGroupSpec;
  specAgents : ServerGroupSpec;
  specDBServers : ServerGroupSpec;
  specCoordinators : ServerGroupSpec
}.

(** Modelled from the spec: the external resource object (spec,
    status and resource version), with the part of its object meta
    that the controller reads. *)
Record ArangoDeployment : Type := {
  Name : string;
  Namespace : string;
  UID : string;
  ResourceVersion : string;
  Spec : DeploymentSpec;
  Status : DeploymentStatus
}.

(** The getters of the spec used by the accessors; they are defined in
    package [api] and taken as parameters. *)
Class SpecOps : Type := {
  GetMode : DeploymentSpec -> DeploymentMode;
  HasAgents : DeploymentMode -> bool;
  HasDBServers : DeploymentMode -> bool;
  HasSingleServers : DeploymentMode -> bool;
  GetStorageClassName : ServerGroupSpec -> string
}.

End api.

Import api.

#[global] Instance ConditionStatus_eq_dec : EqDecision ConditionStatus.
Proof. solve_decision. Defined.
#[global] Instance Condition_eq_dec : EqDecision Condition.
Proof. solve_decision. Defined.
#[global] Instance MemberStatus_eq_dec : EqDecision MemberStatus.
Proof. solve_decision. Defined.
#[global] Instance DeploymentStatusMembers_eq_dec : EqDecision DeploymentStatusMembers.
Proof. solve_decision. Defined.
#[global] Instance DeploymentStatus_eq_dec : EqDecision DeploymentStatus.
Proof. solve_decision. Defined.

(** [reflect.DeepEqual] on two status values: every field is compared,
    [Rest] with what the model leaves out included. *)
Definition DeepEqual (a b : DeploymentStatus) : bool := bool_decide (a = b).

(* ================================================================== *)
(** * The deployment actor ([pkg/deployment/deployment.go]) *)

(** [type deploymentEventType string] and its four constants. *)
Definition deploymentEventType : Type := string.
Definition eventArangoDeploymentUpdated : deploymentEventType := "ArangoDeploymentUpdated".
Definition eventPodAdded : deploymentEventType := "PodAdded".
Definition eventPodUpdated : deploymentEventType := "PodUpdated".
Definition eventPodDeleted : deploymentEventType := "PodDeleted".

(** A [v1.Pod], as far as an event refers to it. *)
Record Pod : Type := { podName : string; podNamespace : string }.

Record deploymentEvent : Type := {
  evType : deploymentEventType;
  evDeployment : option ArangoDeployment;
  evPod : option Pod
}.

Definition deploymentEventQueueSize : Z := 100.

(** [time.Duration] counts nanoseconds. *)
Definition Second : Z := 1000000000.
Definition Minute : Z := 60 * Second.
Definition Hour : Z := 60 * Minute.
Definition inspectionInterval : Z := Minute.

Module trigger.

(** Modelled from the spec: the debounced trigger of package
    [trigger].  Arming marks a wake-up pending unless one already is;
    the wait channel is ready while a wake-up is pending, and a
    delivery clears it. *)
Record Trigger : Type := { pending : bool }.

Definition Trigger_ (t : Trigger) : Trigger := {| pending := true |}.

Definition DoneReady (t : Trigger) : bool := pending t.

Definition Deliver (t : Trigger) : Trigger := {| pending := false |}.

End trigger.

Record Config : Type := { ServiceAccount : string }.

(** [Deployment], without its [deps]: the logger and the clients are
    the [World] below. *)
Record Deployment : Type := {
  apiObject : ArangoDeployment;
  status : DeploymentStatus;
  config : Config;
  eventCh : list deploymentEvent;
  stopCh : bool;
  inspectTrigger : trigger.Trigger
}.

Definition set_apiObject (o : ArangoDeployment) (d : Deployment) : Deployment :=
  {| apiObject := o; status := status d; config := config d;
     eventCh := eventCh d; stopCh := stopCh d; inspectTrigger := inspectTrigger d |}.

Definition set_status (st : DeploymentStatus) (d : Deployment) : Deployment :=
  {| apiObject := apiObject d; status := st; config := config d;
     eventCh := eventCh d; stopCh := stopCh d; inspectTrigger := inspectTrigger d |}.

Definition set_eventCh (q : list deploymentEvent) (d : Deployment) : Deployment :=
  {| apiObject := apiObject d; status := status d; config := config d;
     eventCh := q; stopCh := stopCh d; inspectTrigger := inspectTrigger d |}.

Definition set_stopCh (b : bool) (d : Deployment) : Deployment :=
  {| apiObject := apiObject d; status := status d; config := config d;
     eventCh := eventCh d; stopCh := b; inspectTrigger := inspectTrigger d |}.

Definition set_inspectTrigger (t : trigger.Trigger) (d : Deployment) : Deployment :=
  {| apiObject := apiObject d; status := status d; config := config d;
     eventCh := eventCh d; stopCh := stopCh d; inspectTrigger := t |}.

(** [st.State = s] and [st.Reason = r] *)
Definition set_State (s : DeploymentState) (st : DeploymentStatus) : DeploymentStatus :=
  {| State := s; Reason := Reason st; Members := Members st; Rest := Rest st |}.

Definition set_Reason (r : string) (st : DeploymentStatus) : DeploymentStatus :=
  {| State := State st; Reason := r; Members := Members st; Rest := Rest st |}.

(** [update := o.DeepCopy(); update.Status = st] *)
Definition with_Status (st : DeploymentStatus) (o : ArangoDeployment) : ArangoDeployment :=
  {| Name := Name o; Namespace := Namespace o; UID := UID o;
     ResourceVersion := ResourceVersion o; Spec := Spec o; Status := st |}.

(** ** What the actor talks to *)

Inductive Level : Type := LInfo | LWarn | LError.

(** A [v1.Event] made by [k8sutil.NewErrorEvent(reason, err, object)]. *)
Record Event : Type := { evReason : string; evErr : error; evObject : ArangoDeployment }.

(** A log line: [d.deps.Log] or the process-wide logger, the level,
    the attached error, integer fields and event, and the message. *)
Record LogEntry : Type := {
  logGlobal : bool;
  logLevel : Level;
  logErr : option error;
  logInts : list (string * Z);
  logEvent : option Event;
  logMsg : string
}.

Definition NewErrorEvent (reason : string) (err : error) (o : ArangoDeployment) : Event :=
  {| evReason := reason; evErr := err; evObject := o |}.

(** The requests issued and the collaborators invoked, in order. *)
Inductive Call : Type :=
| CallUpdate (ns : string) (update : ArangoDeployment)
| CallGet (ns name : string)
| CallCreateEvent (evt : Event)
| CallCreateServices
| CallCreateInitialMembers
| CallEnsurePVCs
| CallEnsurePods
| CallInspectPods.

(** The clients in [Dependencies]: the [ArangoDeployments] interface of
    [DatabaseCRCli] and the events interface of [KubeCli], over a
    backing store [Srv]. *)
Class Cluster (Srv : Type) : Type := {
  crUpdate : string -> ArangoDeployment -> Srv -> (ArangoDeployment + error) * Srv;
  crGet : string -> string -> Srv -> (ArangoDeployment + error) * Srv;
  eventsCreate : Event -> Srv -> option error * Srv
}.

(** The methods of [Deployment] that shape and inspect the dependent
    resources; their code is in other files of the package, so they
    are parameters acting on the deployment and the backing store. *)
Class Resources (Srv : Type) : Type := {
  createServices : ArangoDeployment -> Deployment -> Srv -> option error * Deployment * Srv;
  createInitialMembers : ArangoDeployment -> Deployment -> Srv -> option error * Deployment * Srv;
  ensurePVCs : ArangoDeployment -> Deployment -> Srv -> option error * Deployment * Srv;
  ensurePods : ArangoDeployment -> Deployment -> Srv -> option error * Deployment * Srv;
  inspectPods : Deployment -> Srv -> option error * Deployment * Srv
}.

(** Modelled from the spec: the retry engine invokes the operation
    until it succeeds or [maxElapsedTime] has passed since the first
    attempt, with a growing delay between attempts.  [attemptsWithin t]
    is the number of further attempts its delays leave room for within
    [t]; the first attempt is always made. *)
Class Backoff : Type := { attemptsWithin : Z -> nat }.

Record World (Srv : Type) : Type := {
  srv : Srv;
  logs : list LogEntry;
  calls : list Call
}.
Arguments srv {Srv} _.
Arguments logs {Srv} _.
Arguments calls {Srv} _.
Arguments Build_World {Srv} _ _ _.

Record St (Srv : Type) : Type := { dep : Deployment; wld : World Srv }.
Arguments dep {Srv} _.
Arguments wld {Srv} _.
Arguments Build_St {Srv} _ _.

(** How a piece of the worker ends: it goes on, it returns, or the
    process panics. *)
Inductive Outcome : Type := Continue | Return | Panic (msg : string).

(** The cases of the two [select] statements. *)
Inductive SendCase : Type := SendEnqueue | SendStop.
Inductive Branch : Type := BrStop | BrEvent | BrInspect | BrTimer.

(* ================================================================== *)
(** * The worker and the status publication *)

Section Actor.

Context {U : Util} {Srv : Type} {C : Cluster Srv} {R : Resources Srv} {B : Backoff}.

(** A method of [Deployment]: it reads and writes the deployment and
    the world, and yields a result. *)
Definition M (A : Type) : Type := St Srv -> A * St Srv.

#[local] Instance M_ret : MRet M := fun A a s => (a, s).

#[local] Instance M_bind : MBind M :=
  fun A B' k m s => let '(a, s') := m s in k a s'.

#[local] Abbreviation ret := mret.

Definition getDep : M Deployment := fun s => (dep s, s).

Definition modifyDep (f : Deployment -> Deployment) : M unit :=
  fun s => (tt, {| dep := f (dep s); wld := wld s |}).

Definition log (e : LogEntry) : M unit :=
  fun s => (tt, {| dep := dep s;
                   wld := {| srv := srv (wld s); logs := logs (wld s) ++ [e];
                             calls := calls (wld s) |} |}).

(** A request [c] to the backing store. *)
Definition request {A} (c : Call) (f : Srv -> A * Srv) : M A :=
  fun s => let '(a, srv') := f (srv (wld s)) in
           (a, {| dep := dep s;
                  wld := {| srv := srv'; logs := logs (wld s);
                            calls := calls (wld s) ++ [c] |} |}).

(** A call [c] of one of the resource methods. *)
Definition invoke (c : Call) (f : Deployment -> Srv -> option error * Deployment * Srv)
    : M (option error) :=
  fun s => let '(e, d', srv') := f (dep s) (srv (wld s)) in
           (e, {| dep := d';
                  wld := {| srv := srv'; logs := logs (wld s);
                            calls := calls (wld s) ++ [c] |} |}).

Definition logLine (lvl : Level) (err : option error) (msg : string) : LogEntry :=
  {| logGlobal := false; logLevel := lvl; logErr := err; logInts := [];
     logEvent := None; logMsg := msg |}.

(** ** [send], [Update], [Delete] *)

(** [send]: a [select] between the enqueue and the stop signal.  The
    chosen case must be ready; the result is [None] when it is not. *)
Definition send (c : SendCase) (ev : deploymentEvent) (s : St Srv) : option (St Srv) :=
  match c with
  | SendEnqueue =>
      if GoInt.len (eventCh (dep s)) <? deploymentEventQueueSize then
        let s1 := {| dep := set_eventCh (eventCh (dep s) ++ [ev]) (dep s); wld := wld s |} in
        let l := GoInt.len (eventCh (dep s1)) in
        let ecap := deploymentEventQueueSize in
        if l >? Float64.to_int (Float64.mul (Float64.of_int ecap) Float64.c0_8) then
          Some (snd (log {| logGlobal := false; logLevel := LWarn; logErr := None;
                            logInts := [("used", l); ("capacity", ecap)];
                            logEvent := None;
                            logMsg := "event queue buffer is almost full" |} s1))
        else Some s1
      else None
  | SendStop =>
      if stopCh (dep s) then Some s else None
  end.

(** No case of [send]'s [select] is ready: the sender waits. *)
Definition send_blocked (s : St Srv) : bool :=
  negb (GoInt.len (eventCh (dep s)) <? deploymentEventQueueSize) && negb (stopCh (dep s)).

Definition Update (c : SendCase) (apiObject : ArangoDeployment) : St Srv -> option (St Srv) :=
  send c {| evType := eventArangoDeploymentUpdated;
            evDeployment := Some apiObject;
            evPod := None |}.

(** [Delete]: closing a channel that is closed already panics. *)
Definition Delete : M Outcome :=
  log (logLine LInfo None "deployment is deleted by user") ;;
  d ← getDep;
  if stopCh d then ret (Panic "close of closed channel")
  else modifyDep (set_stopCh true) ;; ret Return.

(** ** Status publication *)

Definition updateCRStatus : M (option error) :=
  d ← getDep;
  if DeepEqual (Status (apiObject d)) (status d) then
    ret None
  else
    let update := with_Status (status d) (apiObject d) in
    r ← request (CallUpdate (Namespace (apiObject d)) update)
                 (crUpdate (Namespace (apiObject d)) update);
    match r with
    | inr err =>
        ret (Some (maskAny (Errorf1 "failed to update ArangoDeployment status: %v" err)))
    | inl newAPIObject =>
        modifyDep (set_apiObject newAPIObject) ;;
        ret None
    end.

(** The closure [op] of [reportFailedStatus]. *)
Definition reportFailedStatus_op : M (option error) :=
  modifyDep (fun d => set_status (set_State DeploymentStateFailed (status d)) d) ;;
  err ← updateCRStatus;
  match err with
  | None => ret None
  | Some err =>
      if IsNotFound err then ret None
      else if negb (IsConflict err) then
        log (logLine LWarn (Some err) "retry report status: fail to update") ;;
        ret (Some (maskAny err))
      else
        d ← getDep;
        r ← request (CallGet (Namespace (apiObject d)) (Name (apiObject d)))
                     (crGet (Namespace (apiObject d)) (Name (apiObject d)));
        match r with
        | inr err =>
            if IsNotFound err then ret None
            else
              log (logLine LWarn (Some err) "retry report status: fail to get latest version") ;;
              ret (Some (maskAny err))
        | inl depl =>
            modifyDep (set_apiObject depl) ;;
            ret (Some (maskAny (Errorf0 "retry needed")))
        end
  end.

(** Modelled from the spec: [retry.Retry(op, maxElapsedTime)] invokes
    [op] until it returns success or the time is used up; [budget] is
    the number of attempts that may still follow a failed one. *)
Fixpoint retry_loop (op : M (option error)) (budget : nat) (s : St Srv)
    : option error * St Srv :=
  let '(r, s') := op s in
  match r with
  | None => (None, s')
  | Some e =>
      match budget with
      | O => (Some e, s')
      | S b => retry_loop op b s'
      end
  end.

Definition Retry (op : M (option error)) (maxElapsedTime : Z) : M (option error) :=
  retry_loop op (attemptsWithin maxElapsedTime).

Definition reportFailedStatus : M unit :=
  log (logLine LInfo None "deployment failed. Reporting failed reason...") ;;
  Retry reportFailedStatus_op (Hour * 24 * 365) ;;
  ret tt.

Definition failOnError (err : error) (msg : string) : M unit :=
  log {| logGlobal := true; logLevel := LError; logErr := Some err; logInts := [];
         logEvent := None; logMsg := msg |} ;;
  modifyDep (fun d => set_status (set_Reason (Error err) (status d)) d) ;;
  reportFailedStatus.

Definition handleArangoDeploymentUpdatedEvent (event : deploymentEvent) : M (option error) :=
  ret None.

Definition createEvent (evt : Event) : M unit :=
  err ← request (CallCreateEvent evt) (eventsCreate evt);
  match err with
  | Some err =>
      log {| logGlobal := false; logLevel := LError; logErr := Some err; logInts := [];
             logEvent := Some evt; logMsg := "Failed to record event" |}
  | None => ret tt
  end.

(** ** [run] *)

(** The part of [run] before its [for] loop; the result tells whether
    the loop is reached. *)
Definition run_startup : M bool :=
  err ← invoke CallCreateServices (fun d => createServices (apiObject d) d);
  match err with
  | Some err => failOnError err "Failed to create services" ;; ret false
  | None =>
  err ← invoke CallCreateInitialMembers (fun d => createInitialMembers (apiObject d) d);
  match err with
  | Some err => failOnError err "Failed to create initial members" ;; ret false
  | None =>
  err ← invoke CallEnsurePVCs (fun d => ensurePVCs (apiObject d) d);
  match err with
  | Some err => failOnError err "Failed to create persistent volume claims" ;; ret false
  | None =>
  err ← invoke CallEnsurePods (fun d => ensurePods (apiObject d) d);
  match err with
  | Some err => failOnError err "Failed to create pods" ;; ret false
  | None =>
  modifyDep (fun d => set_status (set_State DeploymentStateRunning (status d)) d) ;;
  err ← updateCRStatus;
  match err with
  | Some err => log (logLine LWarn (Some err) "update initial CR status failed")
  | None => ret tt
  end ;;
  log (logLine LInfo None "start running...") ;;
  ret true
  end end end end.

(** The [switch] on the tag of a received event. *)
Definition run_event (event : deploymentEvent) : M Outcome :=
  if String.eqb (evType event) eventArangoDeploymentUpdated then
    err ← handleArangoDeploymentUpdatedEvent event;
    match err with
    | Some err => failOnError err "Failed to handle deployment update" ;; ret Return
    | None => ret Continue
    end
  else if String.eqb (evType event) eventPodAdded
          || String.eqb (evType event) eventPodUpdated
          || String.eqb (evType event) eventPodDeleted then
    modifyDep (fun d => set_inspectTrigger (trigger.Trigger_ (inspectTrigger d)) d) ;;
    ret Continue
  else
    ret (Panic ("unknown event type" +:+ evType event)).

(** The body of the inspection case. *)
Definition run_inspect : M Outcome :=
  err ← invoke CallInspectPods inspectPods;
  match err with
  | Some err =>
      d ← getDep; createEvent (NewErrorEvent "Pod inspection failed" err (apiObject d))
  | None => ret tt
  end ;;
  err ← invoke CallEnsurePods (fun d => ensurePods (apiObject d) d);
  match err with
  | Some err =>
      d ← getDep; createEvent (NewErrorEvent "Pod creation failed" err (apiObject d))
  | None => ret tt
  end ;;
  ret Continue.

(** One pass of the [for] loop with the case [b] of its [select]; the
    result is [None] when that case is not ready.  The timer case is
    ready once [inspectionInterval] has passed in this pass; time is
    kept by [run_select_at] below. *)
Definition run_select (b : Branch) (s : St Srv) : option (Outcome * St Srv) :=
  match b with
  | BrStop =>
      if stopCh (dep s) then Some (Return, s) else None
  | BrEvent =>
      match eventCh (dep s) with
      | [] => None
      | event :: rest =>
          Some (run_event event {| dep := set_eventCh rest (dep s); wld := wld s |})
      end
  | BrInspect =>
      if trigger.DoneReady (inspectTrigger (dep s)) then
        Some (run_inspect
                {| dep := set_inspectTrigger (trigger.Deliver (inspectTrigger (dep s))) (dep s);
                   wld := wld s |})
      else None
  | BrTimer =>
      Some ((modifyDep (fun d => set_inspectTrigger (trigger.Trigger_ (inspectTrigger d)) d) ;;
             ret Continue) s)
  end.

(** The [for] loop, its [select]s resolved by [sched]; it stops at the
    first pass that does not continue.  [None]: [sched] names a case
    that is not ready. *)
Fixpoint run_loop (sched : list Branch) (s : St Srv) : option (Outcome * St Srv) :=
  match sched with
  | [] => Some (Continue, s)
  | b :: sched' =>
      match run_select b s with
      | None => None
      | Some (Continue, s') => run_loop sched' s'
      | Some (o, s') => Some (o, s')
      end
  end.

Definition run (sched : list Branch) (s : St Srv) : option (Outcome * St Srv) :=
  let '(serving, s1) := run_startup s in
  if serving then run_loop sched s1 else Some (Return, s1).

(** ** The loop with a clock *)

(** The state of the worker at the start of a pass, the time of that
    start, and the events that producers will send, with the time of
    each, in order of time. *)
Record Timed : Type := {
  tst : St Srv;
  now : Z;
  arrivals : list (Z * deploymentEvent)
}.

(** Some case other than the timer is ready at the start of the pass. *)
Definition readyNow (d : Deployment) : bool :=
  stopCh d
  || match eventCh d with [] => false | _ :: _ => true end
  || trigger.DoneReady (inspectTrigger d).

(** The time at which the [select] of a pass started at [t0] wakes up:
    at once if a case is ready, else at the next arrival or when the
    timer made by [time.After(inspectionInterval)] in this pass fires,
    whichever is first. *)
Definition wakeTime (t0 : Z) (d : Deployment) (arr : list (Z * deploymentEvent)) : Z :=
  if readyNow d then t0
  else match arr with
       | (ta, _) :: _ => Z.min (Z.max ta t0) (t0 + inspectionInterval)
       | [] => t0 + inspectionInterval
       end.

(** The events sent up to time [t] are in the queue at [t]. *)
Definition delivered (t : Z) (arr : list (Z * deploymentEvent)) : list deploymentEvent :=
  map snd (List.filter (fun a => fst a <=? t) arr).

Definition outstanding (t : Z) (arr : list (Z * deploymentEvent)) : list (Z * deploymentEvent) :=
  List.filter (fun a => t <? fst a) arr.

(** One pass with the clock: the [select] wakes at [wakeTime]; the
    timer case is ready only if the wake-up is at the timer's deadline.
    The work of a pass takes no time on this clock. *)
Definition run_select_at (b : Branch) (T : Timed) : option (Outcome * Timed) :=
  let t := wakeTime (now T) (dep (tst T)) (arrivals T) in
  let s1 := {| dep := set_eventCh (eventCh (dep (tst T)) ++ delivered t (arrivals T)) (dep (tst T));
               wld := wld (tst T) |} in
  let ready := match b with
               | BrTimer => now T + inspectionInterval <=? t
               | _ => true
               end in
  if ready then
    match run_select b s1 with
    | Some (o, s2) => Some (o, {| tst := s2; now := t; arrivals := outstanding t (arrivals T) |})
    | None => None
    end
  else None.

Fixpoint run_loop_at (sched : list Branch) (T : Timed) : option (Outcome * Timed) :=
  match sched with
  | [] => Some (Continue, T)
  | b :: sched' =>
      match run_select_at b T with
      | None => None
      | Some (Continue, T') => run_loop_at sched' T'
      | Some (o, T') => Some (o, T')
      end
  end.

End Actor.

(* ================================================================== *)
(** * The read accessors of [Deployment] *)

(** The order in which [range] visits the keys of a Go map is not
    fixed; any order of the keys may occur. *)
Class MapOrder : Type := {
  rangeKeys : gset string -> list string;
  rangeKeys_perm : forall m, rangeKeys m ≡ₚ elements m
}.

(** [sort.Strings]: ascending, strings compared byte by byte. *)
Definition sort_Strings (l : list string) : list string := merge_sort String.le l.

Section Accessors.

Context {O : SpecOps} {MO : MapOrder}.

(** Modelled from the spec: [GetStatus] and [GetSpec], defined in other
    files of the package, project the actor's status and the spec of
    its cached object. *)
Definition GetStatus (d : Deployment) : DeploymentStatus := status d.

Definition GetSpec (d : Deployment) : DeploymentSpec := Spec (apiObject d).

Definition PodCount (d : Deployment) : Z :=
  let count := 0 in
  let status := GetStatus d in
  let '(count, _) :=
    ForeachServerGroup (Members status)
      (fun group list count =>
         (fold_left (fun count m =>
                       if negb (String.eqb (PodName m) "") then GoInt.incr count
                       else count) list count,
          None))
      count in
  count.

Definition ReadyPodCount (d : Deployment) : Z :=
  let count := 0 in
  let status := GetStatus d in
  let '(count, _) :=
    ForeachServerGroup (Members status)
      (fun group list count =>
         (fold_left (fun count m =>
                       if String.eqb (PodName m) "" then count
                       else if IsTrue (Conditions m) ConditionTypeReady then GoInt.incr count
                       else count) list count,
          None))
      count in
  count.

Definition StorageClasses (d : Deployment) : list string :=
  let scNames : gset string := ∅ in
  let spec := GetSpec d in
  let mode := GetMode spec in
  let scNames :=
    if HasAgents mode then {[ GetStorageClassName (specAgents spec) ]} ∪ scNames
    else scNames in
  let scNames :=
    if HasDBServers mode then {[ GetStorageClassName (specDBServers spec) ]} ∪ scNames
    else scNames in
  let scNames :=
    if HasSingleServers mode then {[ GetStorageClassName (specSingle spec) ]} ∪ scNames
    else scNames in
  let result := rangeKeys scNames in
  sort_Strings result.

End Accessors.

(** The members of all role groups, and the two kinds of member that
    the counters are about. *)
Definition allMembers (ds : DeploymentStatusMembers) : list MemberStatus :=
  Single ds ++ Agents ds ++ DBServers ds ++ Coordinators ds.

Definition hasPod (m : MemberStatus) : bool := negb (String.eqb (PodName m) "").

Definition isReadyPod (m : MemberStatus) : bool :=
  hasPod m && IsTrue (Conditions m) ConditionTypeReady.

(* ================================================================== *)
(** * Concrete collaborators *)

Module Fake.

(** A backing store that answers from a script, request by request. *)
Record Store : Type := {
  updateReplies : list (ArangoDeployment + error);
  getReplies : list (ArangoDeployment + error)
}.

Definition cluster : Cluster Store := {|
  crUpdate _ _ f :=
    match updateReplies f with
    | [] => (inr (StatusError Other "no reaction"), f)
    | r :: rest => (r, {| updateReplies := rest; getReplies := getReplies f |})
    end;
  crGet _ _ f :=
    match getReplies f with
    | [] => (inr (StatusError Other "no reaction"), f)
    | r :: rest => (r, {| updateReplies := updateReplies f; getReplies := rest |})
    end;
  eventsCreate _ f := (None, f)
|}.

(** Resource methods that leave everything as it is and return the
    given results. *)
Definition resources (r1 r2 r3 r4 r5 : option error) : Resources Store := {|
  createServices _ d f := (r1, d, f);
  createInitialMembers _ d f := (r2, d, f);
  ensurePVCs _ d f := (r3, d, f);
  ensurePods _ d f := (r4, d, f);
  inspectPods d f := (r5, d, f)
|}.

Definition backoff (n : nat) : Backoff := {| attemptsWithin _ := n |}.

(** Modelled from the spec: [k8sutil.IsNotFound], [k8sutil.IsConflict]
    and [maskAny], defined in other packages.  The errors of the
    transport layer are classified into [NotFound], [Conflict] and
    [Other], and the classifiers tell the class of such an error, also
    under the stack decoration that [maskAny] adds.  An error made by
    [fmt.Errorf] with the verb [%v] keeps the text of its argument and
    nothing else of it: it is no error of the transport layer and has
    neither class. *)
Fixpoint causeOf (e : error) : ErrorClass :=
  match e with
  | StatusError reason _ => reason
  | Errorf0 _ => Other
  | Errorf1 _ _ => Other
  | WithStack err => causeOf err
  end.

Definition causeUtil : Util := {|
  maskAny := WithStack;
  IsNotFound e := match causeOf e with NotFound => true | _ => false end;
  IsConflict e := match causeOf e with Conflict => true | _ => false end
|}.

(** Go's map iteration, here in the order of [elements]. *)
Definition mapOrder : MapOrder := {|
  rangeKeys m := elements m;
  rangeKeys_perm m := reflexivity (elements m)
|}.

Definition member (id pod : string) (conds : ConditionList) : MemberStatus :=
  {| ID := id; PodName := pod; PersistentVolumeClaimName := ""; Conditions := conds |}.

Definition noMembers : DeploymentStatusMembers :=
  {| Single := []; Agents := []; DBServers := []; Coordinators := [] |}.

(** Three db-servers with pods assigned and no condition reported. *)
Definition threeMembers : DeploymentStatusMembers :=
  {| Single := []; Agents := [];
     DBServers := [member "PRMR-1" "depl-prmr-1" [];
                   member "PRMR-2" "depl-prmr-2" [];
                   member "PRMR-3" "depl-prmr-3" []];
     Coordinators := [] |}.

Definition groupSpec : ServerGroupSpec := {| Count := 3; StorageClassName := None |}.

Definition spec : DeploymentSpec :=
  {| Mode := "Cluster"; Environment := "Development"; Image := "arangodb/arangodb:latest";
     specSingle := groupSpec; specAgents := groupSpec;
     specDBServers := groupSpec; specCoordinators := groupSpec |}.

Definition statusOf (state : DeploymentState) (ms : DeploymentStatusMembers)
    : DeploymentStatus :=
  {| State := state; Reason := ""; Members := ms; Rest := "" |}.

(** The object as stored at resource version [rv] with status [st]. *)
Definition object (rv : string) (st : DeploymentStatus) : ArangoDeployment :=
  {| Name := "depl"; Namespace := "default"; UID := "uid-1";
     ResourceVersion := rv; Spec := spec; Status := st |}.

Definition deployment (o : ArangoDeployment) (st : DeploymentStatus)
    (q : list deploymentEvent) (stopped : bool) : Deployment :=
  {| apiObject := o; status := st; config := {| ServiceAccount := "default" |};
     eventCh := q; stopCh := stopped;
     inspectTrigger := {| trigger.pending := false |} |}.

Definition state (d : Deployment) (f : Store) : St Store :=
  {| dep := d; wld := {| srv := f; logs := []; calls := [] |} |}.

Definition podEvent (tag : deploymentEventType) : deploymentEvent :=
  {| evType := tag; evDeployment := None;
     evPod := Some {| podName := "depl-prmr-1"; podNamespace := "default" |} |}.

Definition updatedEvent (o : ArangoDeployment) : deploymentEvent :=
  {| evType := eventArangoDeploymentUpdated; evDeployment := Some o; evPod := None |}.

(** A deployment that runs, with an empty queue. *)
Definition running : St Store :=
  state (deployment (object "1" (statusOf DeploymentStateRunning threeMembers))
                    (statusOf DeploymentStateRunning threeMembers) [] false)
        {| updateReplies := []; getReplies := [] |}.

End Fake.

(* ================================================================== *)
(** * More of the deployment and of its accessors *)

(** [Spec.Validate] of package [api]; its code is in another package,
    so it is a parameter. *)
Class Validation : Type := { Validate : DeploymentSpec -> option error }.

(** [New]: the deployment that the two goroutines it starts ([run] and
    the pod listener) begin with, or the error of the validation. *)
Definition New {U : Util} {V : Validation} (config : Config) (apiObject : ArangoDeployment)
    : Deployment + error :=
  match Validate (Spec apiObject) with
  | Some err => inr (maskAny err)
  | None =>
      inl {| apiObject := apiObject;
             status := Status apiObject;
             config := config;
             eventCh := [];
             stopCh := false;
             inspectTrigger := {| trigger.pending := false |} |}
  end.

(** An entry of [GetOwnerReferences()]. *)
Record OwnerReference : Type := { ownerUID : string; ownerName : string }.

(** [isOwnerOf], on the owner references of the object. *)
Definition isOwnerOf (d : Deployment) (ownerRefs : list OwnerReference) : bool :=
  if GoInt.len ownerRefs <? 1 then false
  else match ownerRefs with
       | r :: _ => String.eqb (ownerUID r) (UID (apiObject d))
       | [] => false
       end.

(** A [v1.PersistentVolumeClaim], as far as the accessors read it. *)
Record PersistentVolumeClaim : Type := { pvcName : string; pvcPhase : string }.

Definition ClaimBound : string := "Bound".

(** [GetOwnedPVCs] lists the claims of the deployment; its code is in
    another file of the package, so it is a parameter. *)
Class OwnedPVCs : Type := {
  GetOwnedPVCs : Deployment -> list PersistentVolumeClaim * option error
}.

Definition VolumeCount (d : Deployment) : Z :=
  let count := 0 in
  let status := GetStatus d in
  let '(count, _) :=
    ForeachServerGroup (Members status)
      (fun group list count =>
         (fold_left (fun count m =>
                       if negb (String.eqb (PersistentVolumeClaimName m) "")
                       then GoInt.incr count
                       else count) list count,
          None))
      count in
  count.

Definition ReadyVolumeCount {P : OwnedPVCs} (d : Deployment) : Z :=
  let count := 0 in
  let status := GetStatus d in
  let '(pvcs, _) := GetOwnedPVCs d in
  let '(count, _) :=
    ForeachServerGroup (Members status)
      (fun group list count =>
         (fold_left
            (fun count m =>
               if String.eqb (PersistentVolumeClaimName m) "" then count
               else
                 fold_left
                   (fun count pvc =>
                      if String.eqb (pvcName pvc) (PersistentVolumeClaimName m) then
                        if String.eqb (pvcPhase pvc) ClaimBound then GoInt.incr count
                        else count
                      else count)
                   pvcs count)
            list count,
          None))
      count in
  count.

#[global] Instance ServerGroup_eq_dec : EqDecision ServerGroup.
Proof. solve_decision. Defined.

#[global] Instance ServerGroup_countable : Countable ServerGroup.
Proof.
  refine (inj_countable'
            (fun g => match g with
                      | ServerGroupSingle => 0%nat
                      | ServerGroupAgents => 1%nat
                      | ServerGroupDBServers => 2%nat
                      | ServerGroupCoordinators => 3%nat
                      end)
            (fun n => match n with
                      | 0%nat => ServerGroupSingle
                      | 1%nat => ServerGroupAgents
                      | 2%nat => ServerGroupDBServers
                      | _ => ServerGroupCoordinators
                      end) _).
  intros []; reflexivity.
Defined.

(** The struct [member] that implements [server.Member]; its pointer
    back to the deployment is left out. *)
Record member : Type := { member_id : string; member_group : ServerGroup }.

(** [Members]: the members of the deployment by role. *)
Definition Deployment_Members (d : Deployment) : gmap ServerGroup (list member) :=
  let result : gmap ServerGroup (list member) := ∅ in
  let status := GetStatus d in
  let '(result, _) :=
    ForeachServerGroup (Members status)
      (fun group list result =>
         let members := map (fun m => {| member_id := ID m; member_group := group |}) list in
         (if 0 <? GoInt.len members then <[group := members]> result else result,
          None))
      result in
  result.

(** A [v1.Service], as far as [DatabaseURL] reads it. *)
Record LoadBalancerIngress : Type := { Hostname : string; IP : string }.

Record Service : Type := {
  svcType : string;
  svcIngress : list LoadBalancerIngress
}.

Definition ServiceTypeLoadBalancer : string := "LoadBalancer".
Definition ServiceTypeNodePort : string := "NodePort".

(** The services interface of [KubeCli]. *)
Class Services (Srv : Type) : Type := {
  servicesGet : string -> string -> Srv -> (Service + error) * Srv
}.

(** The helpers that [DatabaseURL] uses from [k8sutil] and [api]; their
    code is in other packages, so they are parameters. *)
Class URLOps : Type := {
  CreateDatabaseExternalAccessServiceName : string -> string;
  IsSecure : DeploymentSpec -> bool;
  ArangoPort : Z
}.

(** [strconv.Itoa] *)
Definition Itoa (n : Z) : string := NilZero.string_of_int (Z.to_int n).

Fixpoint hasColon (s : string) : bool :=
  match s with
  | EmptyString => false
  | String c rest => if Ascii.eqb c ":"%char then true else hasColon rest
  end.

(** [net.JoinHostPort]: a host with a colon in it is put in brackets. *)
Definition JoinHostPort (host port : string) : string :=
  if hasColon host then "[" +:+ host +:+ "]:" +:+ port
  else host +:+ ":" +:+ port.

(** [DatabaseURL], with the backing store after the lookup. *)
Definition DatabaseURL {Srv : Type} {S : Services Srv} {O : SpecOps} {UO : URLOps}
    (d : Deployment) (srv0 : Srv) : string * Srv :=
  let eaSvcName := CreateDatabaseExternalAccessServiceName (Name (apiObject d)) in
  let ns := Namespace (apiObject d) in
  let '(r, srv1) := servicesGet ns eaSvcName srv0 in
  match r with
  | inr err => ("", srv1)
  | inl svc =>
      let host := "" in
      let host :=
        if String.eqb (svcType svc) ServiceTypeLoadBalancer then
          match svcIngress svc with
          | i :: _ => if negb (String.eqb (Hostname i) "") then Hostname i else IP i
          | [] => host
          end
        else host in
      if String.eqb host "" then ("", srv1)
      else
        let scheme := "https" in
        let scheme := if negb (IsSecure (GetSpec d)) then "http" else scheme in
        (scheme +:+ "://" +:+ JoinHostPort host (Itoa ArangoPort), srv1)
  end.

(* ================================================================== *)
(** * The query surface ([pkg/server/handlers_deployment.go]) *)

(** The order in which [range] visits a map keyed by role group. *)
Class GroupMapOrder : Type := {
  rangeGroups : forall {V : Type}, gmap ServerGroup V -> list (ServerGroup * V);
  rangeGroups_perm : forall V (m : gmap ServerGroup V), rangeGroups m ≡ₚ map_to_list m
}.

(** [AsRole] of package [api] and [strings.Title]. *)
Class RoleNames : Type := {
  AsRole : ServerGroup -> string;
  Title : string -> string
}.

Module server.

(** The interface [Member]. *)
Class Member (Mem : Type) : Type := {
  ID : Mem -> string;
  PodName : Mem -> string;
  PVCName : Mem -> string;
  PVName : Mem -> string
}.

(** The interface [Deployment]. *)
Class Deployment (D Mem : Type) : Type := {
  Name : D -> string;
  Namespace : D -> string;
  Mode : D -> DeploymentMode;
  Environment : D -> string;
  PodCount : D -> Z;
  ReadyPodCount : D -> Z;
  VolumeCount : D -> Z;
  ReadyVolumeCount : D -> Z;
  StorageClasses : D -> list string;
  DatabaseURL : D -> string;
  DatabaseVersion : D -> string * string;
  Members : D -> gmap ServerGroup (list Mem)
}.

Record DeploymentInfo : Type := {
  di_Name : string;
  di_Namespace : string;
  di_Mode : DeploymentMode;
  di_Environment : string;
  di_PodCount : Z;
  di_ReadyPodCount : Z;
  di_VolumeCount : Z;
  di_ReadyVolumeCount : Z;
  di_StorageClasses : list string;
  di_DatabaseURL : string;
  di_DatabaseVersion : string;
  di_DatabaseLicense : string
}.

Record MemberInfo : Type := {
  mi_ID : string;
  mi_PodName : string;
  mi_PVCName : string;
  mi_PVName : string
}.

Record MemberGroupInfo : Type := {
  Group : string;
  GroupMembers : list MemberInfo
}.

Record DeploymentInfoDetails : Type := {
  Info : DeploymentInfo;
  MemberGroups : list MemberGroupInfo
}.

(** [sort.Slice] with [less i j := MemberGroups[i].Group <
    MemberGroups[j].Group]: the groups in ascending order of their
    name.  Go leaves the order of entries with equal names open. *)
Definition groupLe (a b : MemberGroupInfo) : Prop := String.le (Group a) (Group b).

#[global] Instance groupLe_dec : RelDecision groupLe.
Proof. intros a b. unfold groupLe. apply _. Defined.

Definition sortByGroup (l : list MemberGroupInfo) : list MemberGroupInfo :=
  merge_sort groupLe l.

Section Handlers.

Context {D Mem : Type} {DI : Deployment D Mem} {MI : Member Mem}
        {GO : GroupMapOrder} {RN : RoleNames}.

Definition newDeploymentInfo (d : D) : DeploymentInfo :=
  let '(version, license) := DatabaseVersion d in
  {| di_Name := Name d;
     di_Namespace := Namespace d;
     di_Mode := Mode d;
     di_Environment := Environment d;
     di_PodCount := PodCount d;
     di_ReadyPodCount := ReadyPodCount d;
     di_VolumeCount := VolumeCount d;
     di_ReadyVolumeCount := ReadyVolumeCount d;
     di_StorageClasses := StorageClasses d;
     di_DatabaseURL := DatabaseURL d;
     di_DatabaseVersion := version;
     di_DatabaseLicense := license |}.

Definition newMemberInfo (m : Mem) : MemberInfo :=
  {| mi_ID := ID m; mi_PodName := PodName m; mi_PVCName := PVCName m; mi_PVName := PVName m |}.

Definition newDeploymentInfoDetails (d : D) : DeploymentInfoDetails :=
  let result := {| Info := newDeploymentInfo d; MemberGroups := [] |} in
  let result :=
    fold_left
      (fun result '(group, list) =>
         let memberInfos := map newMemberInfo list in
         {| Info := Info result;
            MemberGroups := MemberGroups result
                            ++ [ {| Group := Title (AsRole group);
                                    GroupMembers := memberInfos |} ] |})
      (rangeGroups (Members d)) result in
  {| Info := Info result; MemberGroups := sortByGroup (MemberGroups result) |}.

End Handlers.

End server.

(* ================================================================== *)
(** * Vocabulary of the statements *)

(** The names that [StorageClasses] puts into its map. *)
Definition storageClassSet {O : SpecOps} (d : Deployment) : gset string :=
  let spec := GetSpec d in
  let mode := GetMode spec in
  (if HasSingleServers mode then {[ GetStorageClassName (specSingle spec) ]} else ∅)
  ∪ (if HasDBServers mode then {[ GetStorageClassName (specDBServers spec) ]} else ∅)
  ∪ (if HasAgents mode then {[ GetStorageClassName (specAgents spec) ]} else ∅).

(** The four tags that [run] knows. *)
Definition knownEventType (t : deploymentEventType) : Prop :=
  t = eventArangoDeploymentUpdated \/ t = eventPodAdded
  \/ t = eventPodUpdated \/ t = eventPodDeleted.

Definition podEventType (t : deploymentEventType) : Prop :=
  t = eventPodAdded \/ t = eventPodUpdated \/ t = eventPodDeleted.

(** The warning of [send] for a queue holding [l] events. *)
Definition saturationWarning (l : Z) : LogEntry :=
  {| logGlobal := false; logLevel := LWarn; logErr := None;
     logInts := [("used", l); ("capacity", deploymentEventQueueSize)];
     logEvent := None; logMsg := "event queue buffer is almost full" |}.

(** The error that [updateCRStatus] returns when the request fails
    with [err]. *)
Definition updateError {U : Util} (err : error) : error :=
  maskAny (Errorf1 "failed to update ArangoDeployment status: %v" err).

(** The state after a request [c] that left the store as [srv']. *)
Definition requested {Srv : Type} (c : Call) (srv' : Srv) (s : St Srv) : St Srv :=
  {| dep := dep s;
     wld := {| srv := srv'; logs := logs (wld s); calls := calls (wld s) ++ [c] |} |}.

(** The state after [d.status.State = DeploymentStateFailed]. *)
Definition markedFailed {Srv : Type} (s : St Srv) : St Srv :=
  {| dep := set_status (set_State DeploymentStateFailed (status (dep s))) (dep s);
     wld := wld s |}.

Definition isGet (c : Call) : bool :=
  match c with CallGet _ _ => true | _ => false end.

Definition reportingLine : LogEntry :=
  {| logGlobal := false; logLevel := LInfo; logErr := None; logInts := [];
     logEvent := None; logMsg := "deployment failed. Reporting failed reason..." |}.

Definition oneYear : Z := Hour * 24 * 365.

(** A deployment whose status is to be reported as failed, against a
    store that answers the first update with [first] and then follows
    its script. *)
Definition reporting (first : error) (gets updates : list (ArangoDeployment + error))
    : St Fake.Store :=
  Fake.state
    (Fake.deployment (Fake.object "1" (Fake.statusOf DeploymentStateRunning Fake.threeMembers))
                     (Fake.statusOf DeploymentStateRunning Fake.threeMembers) [] false)
    {| Fake.updateReplies := inr first :: updates; Fake.getReplies := gets |}.

Definition conflictError : error :=
  StatusError Conflict "the object has been modified".

Definition notFoundError : error :=
  StatusError NotFound "arangodeployments depl not found".

(** The four startup steps, in the order in which [run] takes them. *)
Definition startupCalls : list Call :=
  [CallCreateServices; CallCreateInitialMembers; CallEnsurePVCs; CallEnsurePods].

Definition startupStep {Srv : Type} {R : Resources Srv} (k : nat)
    : St Srv -> option error * St Srv :=
  match k with
  | 0%nat => invoke CallCreateServices (fun d => createServices (apiObject d) d)
  | 1%nat => invoke CallCreateInitialMembers (fun d => createInitialMembers (apiObject d) d)
  | 2%nat => invoke CallEnsurePVCs (fun d => ensurePVCs (apiObject d) d)
  | _ => invoke CallEnsurePods (fun d => ensurePods (apiObject d) d)
  end.

(** The state after the first [k] steps, when none of them fails. *)
Fixpoint startupPrefix {Srv : Type} {R : Resources Srv} (k : nat) (s : St Srv)
    : option (St Srv) :=
  match k with
  | O => Some s
  | S k' =>
      match startupPrefix k' s with
      | Some s' =>
          match startupStep k' s' with
          | (None, s'') => Some s''
          | (Some _, _) => None
          end
      | None => None
      end
  end.

(** The requests of a failure report: a fetch, or an update that
    carries the state [Failed]. *)
Definition publishesFailed (c : Call) : Prop :=
  match c with
  | CallGet _ _ => True
  | CallUpdate _ update => State (Status update) = DeploymentStateFailed
  | _ => False
  end.

(** [s'] is [s] after some attempts to report the failure. *)
Definition reportedFrom {Srv : Type} (s s' : St Srv) : Prop :=
  status (dep s') = set_State DeploymentStateFailed (status (dep s))
  /\ eventCh (dep s') = eventCh (dep s)
  /\ stopCh (dep s') = stopCh (dep s)
  /\ inspectTrigger (dep s') = inspectTrigger (dep s)
  /\ (exists cs, calls (wld s') = calls (wld s) ++ cs /\ Forall publishesFailed cs)
  /\ (exists ls, logs (wld s') = logs (wld s) ++ ls
                 /\ Forall (fun l => logMsg l <> "start running...") ls).

(** Events that arrive less than [inspectionInterval] apart, the first
    one less than that after [t], all of them updates of the
    deployment. *)
Fixpoint frequentUpdates (t : Z) (arr : list (Z * deploymentEvent)) : Prop :=
  match arr with
  | [] => True
  | (ta, ev) :: rest =>
      t < ta < t + inspectionInterval
      /\ evType ev = eventArangoDeploymentUpdated
      /\ Forall (fun a => ta < fst a) rest
      /\ frequentUpdates ta rest
  end.

(** An update of the deployment every 30 seconds, [n] times, from
    time [t] on. *)
Fixpoint every30s (n : nat) (t : Z) : list (Z * deploymentEvent) :=
  match n with
  | O => []
  | S n' =>
      (t + 30 * Second,
       Fake.updatedEvent (Fake.object "1" (Fake.statusOf DeploymentStateRunning Fake.threeMembers)))
      :: every30s n' (t + 30 * Second)
  end.

(** The member list of a role group. *)
Definition groupMembers (ds : DeploymentStatusMembers) (g : ServerGroup) : MemberStatusList :=
  match g with
  | ServerGroupSingle => Single ds
  | ServerGroupAgents => Agents ds
  | ServerGroupDBServers => DBServers ds
  | ServerGroupCoordinators => Coordinators ds
  end.

Definition hasClaim (m : MemberStatus) : bool :=
  negb (String.eqb (PersistentVolumeClaimName m) "").

(** The bound claims among [pvcs] that carry the claim name of [m]. *)
Definition boundClaimsOf (pvcs : list PersistentVolumeClaim) (m : MemberStatus)
    : list PersistentVolumeClaim :=
  List.filter (fun pvc => String.eqb (pvcName pvc) (PersistentVolumeClaimName m)
                          && String.eqb (pvcPhase pvc) ClaimBound) pvcs.

Definition readyClaims (pvcs : list PersistentVolumeClaim) (ms : list MemberStatus)
    : list PersistentVolumeClaim :=
  flat_map (fun m => if hasClaim m then boundClaimsOf pvcs m else []) ms.

(** The host that [DatabaseURL] takes from an ingress entry. *)
Definition ingressHost (i : LoadBalancerIngress) : string :=
  if String.eqb (Hostname i) "" then IP i else Hostname i.

(** Sending the events [evs] one after the other, each by the enqueue
    case of [send]. *)
Fixpoint sendAll {Srv : Type} (evs : list deploymentEvent) (s : St Srv) : option (St Srv) :=
  match evs with
  | [] => Some s
  | ev :: evs' =>
      match send SendEnqueue ev s with
      | Some s' => sendAll evs' s'
      | None => None
      end
  end.

(** The passes of the loop by kind: an event pass and a timer pass arm
    the inspect trigger (an event pass does when the event is about a
    pod), an inspection pass consumes it. *)
Definition isEventPass (b : Branch) : bool :=
  match b with BrEvent => true | _ => false end.

Definition isInspectPass (b : Branch) : bool :=
  match b with BrInspect => true | _ => false end.

Definition arms (b : Branch) : bool :=
  match b with BrEvent | BrTimer => true | _ => false end.

(** The number of bursts in a schedule: its maximal runs of consecutive
    arming passes.  [armed] tells whether such a run is under way where
    the schedule starts. *)
Fixpoint armingRuns (armed : bool) (sched : list Branch) : nat :=
  match sched with
  | [] => 0
  | b :: rest =>
      if arms b then ((if armed then 0 else 1) + armingRuns true rest)%nat
      else armingRuns false rest
  end.

(** Whether an inspection is pending after the passes of [sched], when
    [p] tells whether one was pending before them. *)
Definition pendingAfter (p : bool) (sched : list Branch) : bool :=
  fold_left (fun p b => if arms b then true else if isInspectPass b then false else p)
            sched p.

(** A resource method that leaves the queue, the stop signal and the
    inspect trigger of the deployment as they are. *)
Definition keepsLoopState {Srv : Type}
    (f : Deployment -> Srv -> option error * Deployment * Srv) : Prop :=
  forall d srv0,
    let d' := snd (fst (f d srv0)) in
    eventCh d' = eventCh d /\ stopCh d' = stopCh d /\ inspectTrigger d' = inspectTrigger d.

(** The requests that publish or fetch the status. *)
Definition isPublish (c : Call) : bool :=
  match c with CallUpdate _ _ | CallGet _ _ => true | _ => false end.

Definition isCreateEvent (c : Call) : bool :=
  match c with CallCreateEvent _ => true | _ => false end.

(** The request by which an inspection pass reports the result [e] of
    one of its steps to the event stream: none when the step
    succeeded. *)
Definition failureEvents (reason : string) (e : option error) (o : ArangoDeployment)
    : list Call :=
  match e with
  | Some err => [CallCreateEvent (NewErrorEvent reason err o)]
  | None => []
  end.

(** The entry that [newDeploymentInfoDetails] makes of a role group
    and its members. *)
Definition groupInfo {Mem : Type} {MI : server.Member Mem} {RN : RoleNames}
    (entry : ServerGroup * list Mem) : server.MemberGroupInfo :=
  {| server.Group := Title (AsRole (fst entry));
     server.GroupMembers := map server.newMemberInfo (snd entry) |}.

(** The warning of a failure report whose update failed with [e]. *)
Definition updateWarning {U : Util} (e : error) : LogEntry :=
  {| logGlobal := false; logLevel := LWarn; logErr := Some (updateError e); logInts := [];
     logEvent := None; logMsg := "retry report status: fail to update" |}.

(** [FailsThen k s s']: from [s], [k] attempts of the failure report
    in a row fail on their update with an error that [k8sutil] takes
    for neither NotFound nor Conflict, which leads to [s']. *)
Inductive FailsThen {U : Util} {Srv : Type} {C : Cluster Srv}
    : nat -> St Srv -> St Srv -> Prop :=
| fails_none (s : St Srv) : FailsThen 0 s s
| fails_more (k : nat) (s s' : St Srv) (e : error) (srv1 : Srv) :
    let sF := markedFailed s in
    let ns := Namespace (apiObject (dep sF)) in
    let update := with_Status (status (dep sF)) (apiObject (dep sF)) in
    Status (apiObject (dep sF)) <> status (dep sF) ->
    crUpdate ns update (srv (wld sF)) = (inr e, srv1) ->
    IsNotFound (updateError e) = false ->
    IsConflict (updateError e) = false ->
    FailsThen k
      {| dep := dep sF;
         wld := {| srv := srv1; logs := logs (wld s) ++ [updateWarning e];
                   calls := calls (wld s) ++ [CallUpdate ns update] |} |}
      s' ->
    FailsThen (S k) s s'.

(* ================================================================== *)
(** * Properties of the accessors *)

Section Counting.

Lemma wrap_small x : GoInt.min_int <= x <= GoInt.max_int -> GoInt.wrap x = x.
Proof.
  unfold GoInt.min_int, GoInt.max_int, GoInt.wrap. intros Hx.
  rewrite Z.mod_small; lia.
Qed.

(** A loop that increments a counter on the members satisfying [p]
    counts them, as long as the counter cannot overflow. *)
Lemma count_loop (p : MemberStatus -> bool) (f : Z -> MemberStatus -> Z) :
  (forall c m, f c m = if p m then GoInt.incr c else c) ->
  forall l c,
    0 <= c -> c + GoInt.len l <= GoInt.max_int ->
    fold_left f l c = c + GoInt.len (List.filter p l).
Proof.
  intros Hf l. induction l as [|m l IH]; intros c Hc Hfit; simpl.
  - unfold GoInt.len. simpl. lia.
  - unfold GoInt.len in *. simpl length in Hfit. rewrite Hf.
    destruct (p m) eqn:Hp.
    + unfold GoInt.incr. rewrite wrap_small by (unfold GoInt.min_int, GoInt.max_int in *; lia).
      rewrite IH by lia. simpl length. lia.
    + rewrite IH by lia. lia.
Qed.

Lemma PodCount_counts (d : Deployment) :
  GoInt.len (allMembers (Members (status d))) <= GoInt.max_int ->
  PodCount d = GoInt.len (List.filter hasPod (allMembers (Members (status d)))).
Proof.
  intros Hfit. unfold PodCount, GetStatus, ForeachServerGroup, allMembers in *.
  rewrite <- !fold_left_app.
  rewrite (count_loop hasPod); [lia | reflexivity | lia | lia].
Qed.

Lemma ReadyPodCount_counts (d : Deployment) :
  GoInt.len (allMembers (Members (status d))) <= GoInt.max_int ->
  ReadyPodCount d = GoInt.len (List.filter isReadyPod (allMembers (Members (status d)))).
Proof.
  intros Hfit. unfold ReadyPodCount, GetStatus, ForeachServerGroup, allMembers in *.
  rewrite <- !fold_left_app.
  rewrite (count_loop isReadyPod); [lia | | lia | lia].
  intros c m. unfold isReadyPod, hasPod. destruct (String.eqb (PodName m) ""); reflexivity.
Qed.

Lemma filter_mono_length {A} (p q : A -> bool) l :
  (forall x, p x = true -> q x = true) ->
  (length (List.filter p l) <= length (List.filter q l))%nat.
Proof.
  intros Hpq. induction l as [|x l IH]; simpl; [lia|].
  destruct (p x) eqn:Hp.
  - rewrite (Hpq x Hp). simpl. lia.
  - destruct (q x); simpl; lia.
Qed.

Lemma IsTrue_absent (l : ConditionList) (t : ConditionType) :
  (forall c, c ∈ l -> cType c <> t) -> IsTrue l t = false.
Proof.
  induction l as [|c l IH]; intros Hno; simpl; [reflexivity|].
  destruct (String.eqb_spec (cType c) t) as [Heq|_].
  - exfalso. apply (Hno c); [left | exact Heq].
  - apply IH. intros c' Hc'. apply Hno. by right.
Qed.

Lemma filter_all {A} (p : A -> bool) l :
  Forall (fun x => p x = true) l -> List.filter p l = l.
Proof. induction 1 as [|x l Hx _ IH]; simpl; [done|]. by rewrite Hx, IH. Qed.

Lemma filter_none {A} (p : A -> bool) l :
  Forall (fun x => p x = false) l -> List.filter p l = [].
Proof. induction 1 as [|x l Hx _ IH]; simpl; [done|]. by rewrite Hx. Qed.

End Counting.

(** C9. For every deployment status (whose member records fit an
    [int] counter), [PodCount] is the number of member records, across
    all role groups, whose pod name is not empty, and [ReadyPodCount] is
    the number of those whose pod name is not empty and whose Ready
    condition is true; [ReadyPodCount] never exceeds [PodCount]; and for
    three members, all with a pod name and none with a Ready condition,
    [PodCount] is 3 and [ReadyPodCount] is 0. *)
Theorem PodCount_ReadyPodCount_spec (d : Deployment) :
  GoInt.len (allMembers (Members (status d))) <= GoInt.max_int ->
  let all := allMembers (Members (status d)) in
  PodCount d = GoInt.len (List.filter hasPod all)
  /\ ReadyPodCount d = GoInt.len (List.filter isReadyPod all)
  /\ ReadyPodCount d <= PodCount d
  /\ (length all = 3%nat ->
      Forall (fun m => PodName m <> "") all ->
      Forall (fun m => forall c, c ∈ Conditions m -> cType c <> ConditionTypeReady) all ->
      PodCount d = 3 /\ ReadyPodCount d = 0).
Proof.
  intros Hfit all.
  pose proof (PodCount_counts d Hfit) as HP.
  pose proof (ReadyPodCount_counts d Hfit) as HR.
  fold all in HP, HR.
  split; [exact HP|]. split; [exact HR|]. split.
  - rewrite HP, HR. unfold GoInt.len. apply inj_le.
    apply filter_mono_length. intros m. unfold isReadyPod.
    intros [H _]%andb_true_iff. exact H.
  - intros Hlen Hpods Hconds. rewrite HP, HR. split.
    + rewrite filter_all; [unfold GoInt.len; rewrite Hlen; reflexivity|].
      eapply Forall_impl; [exact Hpods|]. intros m Hm. unfold hasPod.
      destruct (String.eqb_spec (PodName m) ""); [contradiction | reflexivity].
    + rewrite filter_none; [reflexivity|].
      eapply Forall_impl; [exact Hconds|]. intros m Hm. unfold isReadyPod.
      rewrite (IsTrue_absent _ _ Hm). apply andb_false_r.
Qed.

(** The scenario of the spec: three members with pods, none ready. *)
Lemma PodCount_ReadyPodCount_three :
  let d := Fake.deployment
             (Fake.object "1" (Fake.statusOf DeploymentStateRunning Fake.threeMembers))
             (Fake.statusOf DeploymentStateRunning Fake.threeMembers) [] false in
  GoInt.len (allMembers (Members (status d))) <= GoInt.max_int
  /\ PodCount d = 3 /\ ReadyPodCount d = 0.
Proof.
  intros d.
  assert (Hfit : GoInt.len (allMembers (Members (status d))) <= GoInt.max_int)
    by (vm_compute; discriminate).
  split; [exact Hfit|].
  destruct (PodCount_ReadyPodCount_spec d Hfit) as (_ & _ & _ & H3).
  apply H3.
  - reflexivity.
  - repeat constructor; discriminate.
  - repeat constructor; intros c Hc; inversion Hc.
Defined.

Section Sorting.

Lemma sort_Strings_perm (l : list string) : sort_Strings l ≡ₚ l.
Proof. apply merge_sort_Permutation. Qed.

Lemma sort_Strings_sorted (l : list string) : StronglySorted String.le (sort_Strings l).
Proof. apply StronglySorted_merge_sort; apply _. Qed.

(** Two ascending lists without duplicates that hold the same strings
    are the same list: the result of sorting does not depend on the
    order in which the keys were visited. *)
Lemma sort_Strings_order_irrelevant (l1 l2 : list string) :
  l1 ≡ₚ l2 -> sort_Strings l1 = sort_Strings l2.
Proof.
  intros HP. apply (StronglySorted_unique String.le).
  - apply sort_Strings_sorted.
  - apply sort_Strings_sorted.
  - by rewrite !sort_Strings_perm.
Qed.

End Sorting.

Lemma StorageClasses_perm {O : SpecOps} {MO : MapOrder} (d : Deployment) :
  StorageClasses d ≡ₚ elements (storageClassSet d).
Proof.
  unfold StorageClasses, storageClassSet.
  rewrite sort_Strings_perm, rangeKeys_perm.
  apply elements_proper.
  intros x.
  destruct (HasAgents _), (HasDBServers _), (HasSingleServers _);
    rewrite ?elem_of_union, ?elem_of_singleton, ?elem_of_empty; tauto.
Qed.

(** C10. For every deployment spec, whatever the getters of the spec
    return and in whatever order the map is visited, [StorageClasses]
    returns a list in ascending lexicographic order without duplicates,
    also when several active role groups have the same storage class
    name; it holds exactly the names of the active groups. *)
Theorem StorageClasses_sorted_nodup {O : SpecOps} {MO : MapOrder} (d : Deployment) :
  StronglySorted String.le (StorageClasses d)
  /\ NoDup (StorageClasses d)
  /\ (forall x, x ∈ StorageClasses d <-> x ∈ storageClassSet d).
Proof.
  split; [apply sort_Strings_sorted|]. split.
  - rewrite StorageClasses_perm. apply NoDup_elements.
  - intros x. rewrite StorageClasses_perm. apply elem_of_elements.
Qed.

(** Three active role groups with one storage class: it is listed once. *)
Example StorageClasses_shared :
  let ops := {| GetMode := Mode;
                HasAgents := fun _ => true;
                HasDBServers := fun _ => true;
                HasSingleServers := fun _ => true;
                GetStorageClassName := fun _ => "fast" |} in
  @StorageClasses ops Fake.mapOrder
    (Fake.deployment (Fake.object "1" (Fake.statusOf DeploymentStateRunning Fake.noMembers))
                     (Fake.statusOf DeploymentStateRunning Fake.noMembers) [] false)
  = ["fast"].
Proof. vm_compute. reflexivity. Qed.

(* ================================================================== *)
(** * Properties of the event queue and of the event loop *)

(** Unfolds the plumbing of [M]. *)
Ltac unfold_M :=
  unfold mbind, M_bind, mret, M_ret, getDep, modifyDep, log, request, invoke in *.

Section Loop.

Context {U : Util} {Srv : Type} {C : Cluster Srv} {R : Resources Srv} {B : Backoff}.

Lemma run_event_updated (event : deploymentEvent) (s : St Srv) :
  evType event = eventArangoDeploymentUpdated ->
  run_event event s = (Continue, s).
Proof. intros Ht. unfold run_event. rewrite Ht. reflexivity. Qed.

Lemma run_event_pod (event : deploymentEvent) (s : St Srv) :
  podEventType (evType event) ->
  run_event event s
  = (Continue,
     {| dep := set_inspectTrigger (trigger.Trigger_ (inspectTrigger (dep s))) (dep s);
        wld := wld s |}).
Proof.
  intros [Ht|[Ht|Ht]]; unfold run_event; rewrite Ht; reflexivity.
Qed.

Lemma run_event_unknown (event : deploymentEvent) (s : St Srv) :
  ~ knownEventType (evType event) ->
  run_event event s = (Panic ("unknown event type" +:+ evType event), s).
Proof.
  intros Hno. unfold run_event, knownEventType in *.
  destruct (String.eqb_spec (evType event) eventArangoDeploymentUpdated); [tauto|].
  destruct (String.eqb_spec (evType event) eventPodAdded); [tauto|].
  destruct (String.eqb_spec (evType event) eventPodUpdated); [tauto|].
  destruct (String.eqb_spec (evType event) eventPodDeleted); [tauto|].
  reflexivity.
Qed.

(** C5. For an event with one of the four defined tags the [switch] of
    the loop does not reach its [default] case: the pass does not
    panic; for an event with any other tag it panics, with the tag in
    the message, nothing else happens, and the loop ends there whatever
    else is ready. *)
Theorem run_event_panics_iff_unknown (event : deploymentEvent) (s : St Srv) :
  (knownEventType (evType event) <-> forall msg, fst (run_event event s) <> Panic msg)
  /\ (~ knownEventType (evType event)
      <-> run_event event s = (Panic ("unknown event type" +:+ evType event), s))
  /\ (~ knownEventType (evType event)
      <-> forall rest sched,
            run_loop (BrEvent :: sched)
                     {| dep := set_eventCh (event :: rest) (dep s); wld := wld s |}
            = Some (Panic ("unknown event type" +:+ evType event),
                    {| dep := set_eventCh rest (dep s); wld := wld s |})).
Proof.
  assert (Hknown : knownEventType (evType event) ->
                   forall msg, fst (run_event event s) <> Panic msg).
  { intros [Ht|Ht] msg.
    - rewrite run_event_updated by exact Ht. discriminate.
    - rewrite run_event_pod by exact Ht. discriminate. }
  split; [split|split; [split|split]].
  - exact Hknown.
  - intros Hnp. destruct (decide (knownEventType (evType event))) as [Hk|Hk]; [exact Hk|].
    exfalso. apply (Hnp ("unknown event type" +:+ evType event)).
    by rewrite run_event_unknown.
  - apply run_event_unknown.
  - intros Heq Hk. apply (Hknown Hk ("unknown event type" +:+ evType event)).
    by rewrite Heq.
  - intros Hno rest sched. simpl. by rewrite run_event_unknown.
  - intros Hloop Hk. specialize (Hloop [] []). simpl in Hloop.
    destruct Hk as [Ht|Ht].
    + rewrite run_event_updated in Hloop by exact Ht. discriminate.
    + rewrite run_event_pod in Hloop by exact Ht. discriminate.
Qed.

(** C4. A pass of the loop that receives a pod event (added, updated
    or deleted) only takes the event off the queue and arms the inspect
    trigger: the status, the cached object and everything outside the
    deployment are as before. *)
Theorem run_select_pod_event_frame (s : St Srv) (event : deploymentEvent)
    (rest : list deploymentEvent) :
  eventCh (dep s) = event :: rest ->
  podEventType (evType event) ->
  exists s',
    run_select BrEvent s = Some (Continue, s')
    /\ status (dep s') = status (dep s)
    /\ apiObject (dep s') = apiObject (dep s)
    /\ wld s' = wld s
    /\ trigger.pending (inspectTrigger (dep s')) = true
    /\ eventCh (dep s') = rest
    /\ stopCh (dep s') = stopCh (dep s)
    /\ config (dep s') = config (dep s).
Proof.
  intros Hq Ht. unfold run_select. rewrite Hq, (run_event_pod _ _ Ht).
  eexists. split; [reflexivity|]. simpl. repeat split.
Qed.

Lemma saturation_threshold :
  Float64.to_int (Float64.mul (Float64.of_int deploymentEventQueueSize) Float64.c0_8) = 80.
Proof. vm_compute. reflexivity. Qed.

Lemma send_enqueue (s : St Srv) (ev : deploymentEvent) :
  GoInt.len (eventCh (dep s)) < deploymentEventQueueSize ->
  let l := GoInt.len (eventCh (dep s) ++ [ev]) in
  send SendEnqueue ev s
  = Some {| dep := set_eventCh (eventCh (dep s) ++ [ev]) (dep s);
            wld := {| srv := srv (wld s);
                      logs := logs (wld s) ++ (if 80 <? l then [saturationWarning l] else []);
                      calls := calls (wld s) |} |}.
Proof.
  intros Hlen l. unfold send.
  destruct (Z.ltb_spec (GoInt.len (eventCh (dep s))) deploymentEventQueueSize); [|lia].
  rewrite saturation_threshold. simpl eventCh. fold l.
  rewrite Z.gtb_ltb. destruct (80 <? l); simpl.
  - reflexivity.
  - rewrite app_nil_r. by destruct s as [d [? ? ?]].
Qed.

(** C6. On a deployment that has not been stopped, [send] cannot drop
    the event: the stop case is not ready; with room in the queue the
    event is appended to it, and the saturation warning is logged
    exactly when the queue then holds more than 80% of its capacity of
    100, warning or not; with a full queue the sender waits. *)
Theorem send_running_enqueues (s : St Srv) (ev : deploymentEvent) :
  stopCh (dep s) = false ->
  deploymentEventQueueSize = 100
  /\ send SendStop ev s = None
  /\ (GoInt.len (eventCh (dep s)) < deploymentEventQueueSize ->
      exists s',
        send SendEnqueue ev s = Some s'
        /\ eventCh (dep s') = eventCh (dep s) ++ [ev]
        /\ status (dep s') = status (dep s)
        /\ apiObject (dep s') = apiObject (dep s)
        /\ stopCh (dep s') = false
        /\ (let l := GoInt.len (eventCh (dep s')) in
            (10 * l > 8 * deploymentEventQueueSize
             /\ logs (wld s') = logs (wld s) ++ [saturationWarning l])
            \/ (10 * l <= 8 * deploymentEventQueueSize
                /\ logs (wld s') = logs (wld s))))
  /\ (deploymentEventQueueSize <= GoInt.len (eventCh (dep s)) ->
      send SendEnqueue ev s = None /\ send_blocked s = true).
Proof.
  intros Hrun. split; [reflexivity|]. split.
  { unfold send. by rewrite Hrun. }
  split.
  - intros Hlen. eexists. split; [by apply send_enqueue|].
    simpl. rewrite Hrun. repeat split.
    unfold deploymentEventQueueSize.
    destruct (Z.ltb_spec 80 (GoInt.len (eventCh (dep s) ++ [ev]))).
    + left. split; [lia|reflexivity].
    + right. split; [lia|]. by rewrite app_nil_r.
  - intros Hfull. unfold send, send_blocked. rewrite Hrun.
    destruct (Z.ltb_spec (GoInt.len (eventCh (dep s))) deploymentEventQueueSize); [lia|].
    split; reflexivity.
Qed.

Lemma Delete_closes (s s1 : St Srv) :
  Delete s = (Return, s1) ->
  stopCh (dep s) = false
  /\ dep s1 = set_stopCh true (dep s)
  /\ srv (wld s1) = srv (wld s) /\ calls (wld s1) = calls (wld s).
Proof.
  unfold Delete. unfold_M. simpl. destruct (stopCh (dep s)) eqn:Hst; [discriminate|].
  intros [= <-]. auto.
Qed.

(** C8. Once [Delete] has closed the stop signal, [Update] does not
    wait (the stop case of its [select] is ready), whichever case it
    takes leaves the status, the cached object and the backing store as
    they are, and a pass of the loop that still receives an
    [ArangoDeploymentUpdated] event goes on with the status, the cached
    object and the world unchanged. *)
Theorem Update_after_Delete (s s1 : St Srv) (obj : ArangoDeployment) :
  Delete s = (Return, s1) ->
  Update SendStop obj s1 = Some s1
  /\ send_blocked s1 = false
  /\ (forall c s2, Update c obj s1 = Some s2 ->
        status (dep s2) = status (dep s1)
        /\ apiObject (dep s2) = apiObject (dep s1)
        /\ stopCh (dep s2) = true
        /\ srv (wld s2) = srv (wld s1))
  /\ (forall (s' : St Srv) event rest,
        eventCh (dep s') = event :: rest ->
        evType event = eventArangoDeploymentUpdated ->
        exists s'',
          run_select BrEvent s' = Some (Continue, s'')
          /\ status (dep s'') = status (dep s')
          /\ apiObject (dep s'') = apiObject (dep s')
          /\ inspectTrigger (dep s'') = inspectTrigger (dep s')
          /\ wld s'' = wld s').
Proof.
  intros (_ & Hd & _)%Delete_closes.
  assert (Hst : stopCh (dep s1) = true) by (by rewrite Hd).
  split; [|split; [|split]].
  - unfold Update, send. by rewrite Hst.
  - unfold send_blocked. rewrite Hst. apply andb_false_r.
  - intros c s2. unfold Update. destruct c.
    + unfold send.
      destruct (GoInt.len (eventCh (dep s1)) <? deploymentEventQueueSize); [|discriminate].
      match goal with |- context [if ?b then _ else _] => destruct b end;
        intros [= <-]; simpl; auto.
    + unfold send. rewrite Hst. intros [= <-]. auto.
  - intros s' event rest Hq Ht. unfold run_select. rewrite Hq.
    rewrite run_event_updated by exact Ht.
    eexists. split; [reflexivity|]. simpl. auto.
Qed.

End Loop.

Lemma run_select_pod_event_frame_witness :
  exists s',
    run_select (U := Fake.causeUtil) (C := Fake.cluster)
               (R := Fake.resources None None None None None) (B := Fake.backoff 1)
               BrEvent
               (Fake.state (Fake.deployment
                              (Fake.object "1" (Fake.statusOf DeploymentStateRunning Fake.threeMembers))
                              (Fake.statusOf DeploymentStateRunning Fake.threeMembers)
                              [Fake.podEvent eventPodDeleted] false)
                           {| Fake.updateReplies := []; Fake.getReplies := [] |})
    = Some (Continue, s')
    /\ status (dep s') = Fake.statusOf DeploymentStateRunning Fake.threeMembers
    /\ trigger.pending (inspectTrigger (dep s')) = true.
Proof.
  destruct (run_select_pod_event_frame
              (U := Fake.causeUtil) (C := Fake.cluster)
              (R := Fake.resources None None None None None) (B := Fake.backoff 1)
              (Fake.state (Fake.deployment
                             (Fake.object "1" (Fake.statusOf DeploymentStateRunning Fake.threeMembers))
                             (Fake.statusOf DeploymentStateRunning Fake.threeMembers)
                             [Fake.podEvent eventPodDeleted] false)
                          {| Fake.updateReplies := []; Fake.getReplies := [] |})
              (Fake.podEvent eventPodDeleted) [])
    as (s' & Hrun & Hst & _ & _ & Hp & _).
  - reflexivity.
  - right. right. reflexivity.
  - exists s'. split; [exact Hrun|]. split; [exact Hst | exact Hp].
Defined.

Lemma send_running_enqueues_witness :
  stopCh (dep Fake.running) = false
  /\ send SendStop (Fake.podEvent eventPodAdded) Fake.running = None.
Proof.
  split; [reflexivity|].
  apply (send_running_enqueues Fake.running (Fake.podEvent eventPodAdded)).
  reflexivity.
Defined.

Lemma Update_after_Delete_witness :
  exists s1,
    Delete Fake.running = (Return, s1)
    /\ Update SendStop (Fake.object "2" (Fake.statusOf DeploymentStateRunning Fake.noMembers)) s1
       = Some s1.
Proof.
  eexists. split; [reflexivity|].
  apply (Update_after_Delete (U := Fake.causeUtil) (C := Fake.cluster)
           (R := Fake.resources None None None None None) (B := Fake.backoff 1)
           Fake.running).
  reflexivity.
Defined.

(* ================================================================== *)
(** * Properties of the status publication *)

Section Publish.

Context {U : Util} {Srv : Type} {C : Cluster Srv} {R : Resources Srv} {B : Backoff}.

Lemma DeepEqual_true a b : a = b -> DeepEqual a b = true.
Proof. intros ->. unfold DeepEqual. by apply bool_decide_eq_true. Qed.

Lemma DeepEqual_false a b : a <> b -> DeepEqual a b = false.
Proof. intros H. unfold DeepEqual. by apply bool_decide_eq_false. Qed.

Lemma updateCRStatus_unchanged (s : St Srv) :
  Status (apiObject (dep s)) = status (dep s) ->
  updateCRStatus s = (None, s).
Proof.
  intros Heq. unfold updateCRStatus. unfold_M. by rewrite DeepEqual_true.
Qed.

Lemma updateCRStatus_fails (s : St Srv) (e : error) (srv1 : Srv) :
  let update := with_Status (status (dep s)) (apiObject (dep s)) in
  let ns := Namespace (apiObject (dep s)) in
  Status (apiObject (dep s)) <> status (dep s) ->
  crUpdate ns update (srv (wld s)) = (inr e, srv1) ->
  updateCRStatus s = (Some (updateError e), requested (CallUpdate ns update) srv1 s).
Proof.
  intros update ns Hne Hupd. unfold updateCRStatus. unfold_M.
  rewrite DeepEqual_false by exact Hne. fold update ns. rewrite Hupd. reflexivity.
Qed.

Lemma updateCRStatus_succeeds (s : St Srv) (o : ArangoDeployment) (srv1 : Srv) :
  let update := with_Status (status (dep s)) (apiObject (dep s)) in
  let ns := Namespace (apiObject (dep s)) in
  Status (apiObject (dep s)) <> status (dep s) ->
  crUpdate ns update (srv (wld s)) = (inl o, srv1) ->
  updateCRStatus s
  = (None, {| dep := set_apiObject o (dep s);
              wld := wld (requested (CallUpdate ns update) srv1 s) |}).
Proof.
  intros update ns Hne Hupd. unfold updateCRStatus. unfold_M.
  rewrite DeepEqual_false by exact Hne. fold update ns. rewrite Hupd. reflexivity.
Qed.

Lemma op_unfold (s : St Srv) :
  reportFailedStatus_op s
  = let '(err, s1) := updateCRStatus (markedFailed s) in
    match err with
    | None => (None, s1)
    | Some err =>
        if IsNotFound err then (None, s1)
        else if negb (IsConflict err) then
          (Some (maskAny err),
           snd (log (logLine LWarn (Some err) "retry report status: fail to update") s1))
        else
          let ns := Namespace (apiObject (dep s1)) in
          let name := Name (apiObject (dep s1)) in
          let '(r, srv2) := crGet ns name (srv (wld s1)) in
          let s2 := requested (CallGet ns name) srv2 s1 in
          match r with
          | inr err =>
              if IsNotFound err then (None, s2)
              else (Some (maskAny err),
                    snd (log (logLine LWarn (Some err)
                                "retry report status: fail to get latest version") s2))
          | inl depl =>
              (Some (maskAny (Errorf0 "retry needed")),
               {| dep := set_apiObject depl (dep s2); wld := wld s2 |})
          end
    end.
Proof.
  unfold reportFailedStatus_op. unfold_M. unfold markedFailed.
  destruct (updateCRStatus _) as [[err|] s1]; [|reflexivity].
  destruct (IsNotFound err); [reflexivity|].
  destruct (IsConflict err); simpl; [|reflexivity].
  unfold requested. destruct (crGet _ _ _) as [[depl|err2] srv2]; [reflexivity|].
  destruct (IsNotFound err2); reflexivity.
Qed.

Lemma set_State_idem st x : set_State x (set_State x st) = set_State x st.
Proof. reflexivity. Qed.

Lemma reportFailedStatus_unfold (s : St Srv) :
  reportFailedStatus s
  = (tt, snd (Retry reportFailedStatus_op oneYear (snd (log reportingLine s)))).
Proof.
  unfold reportFailedStatus. unfold_M. simpl.
  unfold oneYear. destruct (Retry _ _ _). reflexivity.
Qed.

(** C1, as the code has it.  The status update of a failure report
    fails once with a Conflict, and the update that follows succeeds.
    [updateCRStatus] hands the Conflict on as a new error made by
    [fmt.Errorf], of which [k8sutil.IsConflict] does not hold.  The
    publisher therefore does not fetch the current object and does not
    replace the cached one: it logs a warning, returns the error to the
    retry loop, and the second attempt sends the very same update,
    made from the stale cached object, again. *)
Theorem reportFailedStatus_conflict_not_refetched
    (s0 : St Srv) (e1 : error) (srv1 : Srv) (newObj : ArangoDeployment) (srv2 : Srv) :
  let failed := set_State DeploymentStateFailed (status (dep s0)) in
  let ns := Namespace (apiObject (dep s0)) in
  let update1 := with_Status failed (apiObject (dep s0)) in
  let warning := logLine LWarn (Some (updateError e1)) "retry report status: fail to update" in
  Status (apiObject (dep s0)) <> failed ->
  crUpdate ns update1 (srv (wld s0)) = (inr e1, srv1) ->
  IsConflict e1 = true ->
  IsNotFound (updateError e1) = false ->
  IsConflict (updateError e1) = false ->
  crUpdate ns update1 srv1 = (inl newObj, srv2) ->
  (1 <= attemptsWithin oneYear)%nat ->
  exists s1 s2,
    reportFailedStatus_op (snd (log reportingLine s0))
      = (Some (maskAny (updateError e1)), s1)
    /\ apiObject (dep s1) = apiObject (dep s0)
    /\ calls (wld s1) = calls (wld s0) ++ [CallUpdate ns update1]
    /\ logs (wld s1) = logs (wld s0) ++ [reportingLine; warning]
    /\ reportFailedStatus_op s1 = (None, s2)
    /\ Retry reportFailedStatus_op oneYear (snd (log reportingLine s0)) = (None, s2)
    /\ reportFailedStatus s0 = (tt, s2)
    /\ calls (wld s2) = calls (wld s0) ++ [CallUpdate ns update1; CallUpdate ns update1]
    /\ List.filter isGet (calls (wld s2)) = List.filter isGet (calls (wld s0))
    /\ logs (wld s2) = logs (wld s0) ++ [reportingLine; warning]
    /\ apiObject (dep s2) = newObj
    /\ status (dep s2) = failed
    /\ srv (wld s2) = srv2.
Proof.
  intros failed ns update1 warning Hne Hupd _ Hnf Hcf Hupd2 Hbudget.
  set (s0' := snd (log reportingLine s0)).
  (* the first attempt *)
  assert (H1 : reportFailedStatus_op s0'
               = (Some (maskAny (updateError e1)),
                  {| dep := set_status failed (dep s0);
                     wld := {| srv := srv1;
                               logs := (logs (wld s0) ++ [reportingLine]) ++ [warning];
                               calls := calls (wld s0) ++ [CallUpdate ns update1] |} |})).
  { rewrite op_unfold.
    rewrite (updateCRStatus_fails (markedFailed s0') e1 srv1); [|exact Hne|exact Hupd].
    rewrite Hnf, Hcf. reflexivity. }
  match type of H1 with _ = (_, ?s) => set (s1 := s) in * end.
  (* the second attempt *)
  assert (H2 : reportFailedStatus_op s1
               = (None,
                  {| dep := set_apiObject newObj (set_status failed (dep s0));
                     wld := {| srv := srv2;
                               logs := (logs (wld s0) ++ [reportingLine]) ++ [warning];
                               calls := (calls (wld s0) ++ [CallUpdate ns update1])
                                          ++ [CallUpdate ns update1] |} |})).
  { rewrite op_unfold.
    rewrite (updateCRStatus_succeeds (markedFailed s1) newObj srv2);
      [reflexivity|exact Hne|exact Hupd2]. }
  match type of H2 with _ = (_, ?s) => set (s2 := s) in * end.
  assert (HR : Retry reportFailedStatus_op oneYear s0' = (None, s2)).
  { unfold Retry. destruct (attemptsWithin oneYear) as [|b]; [lia|].
    simpl. rewrite H1. destruct b; simpl; by rewrite H2. }
  exists s1, s2. split_and!.
  - exact H1.
  - reflexivity.
  - reflexivity.
  - simpl. by rewrite <- app_assoc.
  - exact H2.
  - exact HR.
  - rewrite reportFailedStatus_unfold. fold s0'. by rewrite HR.
  - simpl. by rewrite <- app_assoc.
  - simpl. by rewrite !List.filter_app, !app_nil_r.
  - simpl. by rewrite <- app_assoc.
  - reflexivity.
  - reflexivity.
  - reflexivity.
Qed.

End Publish.

Lemma reportFailedStatus_conflict_not_refetched_witness :
  let running := Fake.statusOf DeploymentStateRunning Fake.threeMembers in
  let failed := Fake.statusOf DeploymentStateFailed Fake.threeMembers in
  let s0 := reporting conflictError [inl (Fake.object "2" running)]
                      [inl (Fake.object "3" failed)] in
  exists s2,
    reportFailedStatus (U := Fake.causeUtil) (C := Fake.cluster) (B := Fake.backoff 1) s0
      = (tt, s2)
    /\ List.filter isGet (calls (wld s2)) = []
    /\ calls (wld s2)
       = [CallUpdate "default" (Fake.object "1" failed);
          CallUpdate "default" (Fake.object "1" failed)]
    /\ Fake.getReplies (srv (wld s2)) = [inl (Fake.object "2" running)]
    /\ logs (wld s2)
       = [reportingLine;
          logLine LWarn (Some (updateError (U := Fake.causeUtil) conflictError))
                  "retry report status: fail to update"].
Proof.
  intros running failed s0.
  destruct (reportFailedStatus_conflict_not_refetched
              (U := Fake.causeUtil) (C := Fake.cluster) (B := Fake.backoff 1)
              s0 conflictError
              {| Fake.updateReplies := [inl (Fake.object "3" failed)];
                 Fake.getReplies := [inl (Fake.object "2" running)] |}
              (Fake.object "3" failed)
              {| Fake.updateReplies := []; Fake.getReplies := [inl (Fake.object "2" running)] |})
    as (s1 & s2 & _ & _ & _ & _ & _ & _ & Hrep & Hcalls & Hgets & Hlogs & _ & _ & Hsrv).
  - discriminate.
  - reflexivity.
  - reflexivity.
  - reflexivity.
  - reflexivity.
  - reflexivity.
  - simpl. lia.
  - exists s2. split; [exact Hrep|]. split; [exact Hgets|]. split; [exact Hcalls|].
    split; [by rewrite Hsrv | exact Hlogs].
Defined.

(* ================================================================== *)
(** * Properties of the startup *)

Section Startup.

Context {U : Util} {Srv : Type} {C : Cluster Srv} {R : Resources Srv} {B : Backoff}.

Lemma reportedFrom_trans (s1 s2 s3 : St Srv) :
  reportedFrom s1 s2 -> reportedFrom s2 s3 -> reportedFrom s1 s3.
Proof.
  intros (Hs & Hq & Hp & Ht & (cs & Hc & Hcs) & (ls & Hl & Hls))
         (Hs' & Hq' & Hp' & Ht' & (cs' & Hc' & Hcs') & (ls' & Hl' & Hls')).
  repeat split; try congruence.
  - rewrite Hs', Hs. reflexivity.
  - exists (cs ++ cs'). split; [by rewrite Hc', Hc, app_assoc | by apply Forall_app].
  - exists (ls ++ ls'). split; [by rewrite Hl', Hl, app_assoc | by apply Forall_app].
Qed.

Lemma updateCRStatus_cases (s : St Srv) :
  updateCRStatus s = (None, s)
  \/ (exists e srv1,
        updateCRStatus s
        = (Some (updateError e),
           requested (CallUpdate (Namespace (apiObject (dep s)))
                                 (with_Status (status (dep s)) (apiObject (dep s)))) srv1 s))
  \/ (exists o srv1,
        updateCRStatus s
        = (None,
           {| dep := set_apiObject o (dep s);
              wld := wld (requested (CallUpdate (Namespace (apiObject (dep s)))
                                       (with_Status (status (dep s)) (apiObject (dep s))))
                                    srv1 s) |})).
Proof.
  destruct (decide (Status (apiObject (dep s)) = status (dep s))) as [Heq|Hne].
  - left. by apply updateCRStatus_unchanged.
  - right.
    destruct (crUpdate (Namespace (apiObject (dep s)))
                (with_Status (status (dep s)) (apiObject (dep s))) (srv (wld s)))
      as [[o|e] srv1] eqn:Hupd.
    + right. exists o, srv1. by apply updateCRStatus_succeeds.
    + left. exists e, srv1. by apply updateCRStatus_fails.
Qed.

Lemma reportedFrom_intro (s s' : St Srv) (cs : list Call) (ls : list LogEntry) :
  status (dep s') = set_State DeploymentStateFailed (status (dep s)) ->
  eventCh (dep s') = eventCh (dep s) ->
  stopCh (dep s') = stopCh (dep s) ->
  inspectTrigger (dep s') = inspectTrigger (dep s) ->
  calls (wld s') = calls (wld s) ++ cs ->
  Forall publishesFailed cs ->
  logs (wld s') = logs (wld s) ++ ls ->
  Forall (fun l => logMsg l <> "start running...") ls ->
  reportedFrom s s'.
Proof. unfold reportedFrom. eauto 10. Qed.

(** Closes a goal [reportedFrom s s'] for explicit states, given the
    requests and the log lines that were added. *)
Ltac reported_with cs ls :=
  apply (reportedFrom_intro _ _ cs ls); simpl;
  rewrite <- ?app_assoc, ?app_nil_r; try reflexivity;
  repeat constructor; try discriminate.

(** One attempt of the report, however it ends. *)
Lemma op_reportedFrom (s : St Srv) :
  reportedFrom s (snd (reportFailedStatus_op s)).
Proof.
  rewrite op_unfold.
  set (ns := Namespace (apiObject (dep (markedFailed s)))).
  set (name := Name (apiObject (dep (markedFailed s)))).
  set (update := with_Status (status (dep (markedFailed s)))
                             (apiObject (dep (markedFailed s)))).
  destruct (updateCRStatus_cases (markedFailed s))
    as [-> | [(e & srv1 & ->) | (o & srv1 & ->)]]; fold ns update.
  - (* nothing to update *)
    reported_with (@nil Call) (@nil LogEntry).
  - (* the update failed *)
    destruct (IsNotFound (updateError e)).
    { reported_with [CallUpdate ns update] (@nil LogEntry). }
    destruct (IsConflict (updateError e)); simpl.
    + destruct (crGet _ _ _) as [[depl|e2] srv2].
      * reported_with [CallUpdate ns update; CallGet ns name] (@nil LogEntry).
      * destruct (IsNotFound e2).
        -- reported_with [CallUpdate ns update; CallGet ns name] (@nil LogEntry).
        -- reported_with [CallUpdate ns update; CallGet ns name]
             [logLine LWarn (Some e2)
                "retry report status: fail to get latest version"].
    + reported_with [CallUpdate ns update]
        [logLine LWarn (Some (updateError e)) "retry report status: fail to update"].
  - (* the update succeeded *)
    reported_with [CallUpdate ns update] (@nil LogEntry).
Qed.

Lemma retry_reportedFrom (budget : nat) (s : St Srv) :
  reportedFrom s (snd (retry_loop reportFailedStatus_op budget s)).
Proof.
  revert s. induction budget as [|b IH]; intros s; simpl;
    pose proof (op_reportedFrom s) as Hop;
    destruct (reportFailedStatus_op s) as [[e|] s1]; simpl in *; try exact Hop.
  eapply reportedFrom_trans; [exact Hop | apply IH].
Qed.

(** [failOnError] leaves the text of the error as the reason and
    [Failed] as the state, and does nothing but report. *)
Lemma failOnError_spec (err : error) (msg : string) (s : St Srv) :
  msg <> "start running..." ->
  let s' := snd (failOnError err msg s) in
  Reason (status (dep s')) = Error err
  /\ State (status (dep s')) = DeploymentStateFailed
  /\ Members (status (dep s')) = Members (status (dep s))
  /\ eventCh (dep s') = eventCh (dep s)
  /\ stopCh (dep s') = stopCh (dep s)
  /\ inspectTrigger (dep s') = inspectTrigger (dep s)
  /\ (exists cs, calls (wld s') = calls (wld s) ++ cs /\ Forall publishesFailed cs)
  /\ (exists ls, logs (wld s') = logs (wld s) ++ ls
                 /\ Forall (fun l => logMsg l <> "start running...") ls).
Proof.
  intros Hmsg s'.
  assert (Hs' : exists s1,
             s' = snd (retry_loop reportFailedStatus_op (attemptsWithin oneYear) s1)
             /\ dep s1 = set_status (set_Reason (Error err) (status (dep s))) (dep s)
             /\ calls (wld s1) = calls (wld s)
             /\ logs (wld s1)
                = logs (wld s)
                  ++ [ {| logGlobal := true; logLevel := LError; logErr := Some err;
                          logInts := []; logEvent := None; logMsg := msg |};
                       reportingLine ]).
  { eexists. split; [|split; [|split]].
    - subst s'. unfold failOnError. unfold mbind, M_bind, modifyDep. unfold log at 1. simpl.
      rewrite reportFailedStatus_unfold. simpl. unfold Retry. reflexivity.
    - reflexivity.
    - reflexivity.
    - simpl. by rewrite <- app_assoc. }
  destruct Hs' as (s1 & Heq & Hd1 & Hc1 & Hl1). rewrite Heq. clear s' Heq.
  pose proof (retry_reportedFrom (attemptsWithin oneYear) s1) as Hrep.
  set (s' := snd (retry_loop reportFailedStatus_op (attemptsWithin oneYear) s1)) in *.
  destruct Hrep as (Hs & Hq & Hp & Ht & (cs & Hc & Hcs) & (ls & Hl & Hls)).
  rewrite Hd1 in Hs, Hq, Hp, Ht. rewrite Hc1 in Hc. rewrite Hl1 in Hl.
  simpl in *. rewrite Hs. simpl.
  split; [reflexivity|]. split; [reflexivity|]. split; [reflexivity|].
  split; [exact Hq|]. split; [exact Hp|]. split; [exact Ht|]. split.
  - exists cs. by split.
  - eexists. split; [rewrite Hl, <- !app_assoc; reflexivity|].
    constructor; [exact Hmsg|]. constructor; [discriminate|]. exact Hls.
Qed.

Lemma invoke_calls (c : Call) f (s s' : St Srv) (e : option error) :
  invoke c f s = (e, s') ->
  calls (wld s') = calls (wld s) ++ [c] /\ logs (wld s') = logs (wld s).
Proof.
  unfold invoke. destruct (f (dep s) (srv (wld s))) as [[e0 d0] srv0].
  intros [= <- <-]. auto.
Qed.

Lemma startupStep_calls (k : nat) (s s' : St Srv) (e : option error) :
  (k < 4)%nat ->
  startupStep k s = (e, s') ->
  calls (wld s') = calls (wld s) ++ firstn 1 (skipn k startupCalls)
  /\ logs (wld s') = logs (wld s).
Proof.
  intros Hk. destruct k as [|[|[|[|k]]]]; try lia;
    unfold startupStep; intros H; apply invoke_calls in H; exact H.
Qed.

Lemma startupPrefix_calls (k : nat) (s sk : St Srv) :
  (k <= 4)%nat ->
  startupPrefix k s = Some sk ->
  calls (wld sk) = calls (wld s) ++ firstn k startupCalls
  /\ logs (wld sk) = logs (wld s).
Proof.
  revert sk. induction k as [|k IH]; intros sk Hk; simpl.
  - intros [= <-]. by rewrite app_nil_r.
  - destruct (startupPrefix k s) as [s1|] eqn:Hpre; [|discriminate].
    destruct (startupStep k s1) as [[e|] s2] eqn:Hstep; [discriminate|].
    intros [= <-].
    destruct (IH s1 ltac:(lia) eq_refl) as [Hc Hl].
    destruct (startupStep_calls k s1 s2 None ltac:(lia) Hstep) as [Hc2 Hl2].
    split; [|congruence].
    rewrite Hc2, Hc, <- app_assoc. f_equal.
    destruct k as [|[|[|[|k]]]]; try lia; reflexivity.
Qed.

(** What [run_startup] does when step [k] is the first to fail. *)
Lemma run_startup_after_steps (s s4 : St Srv) :
  startupPrefix 4 s = Some s4 ->
  run_startup s
  = let s5 := {| dep := set_status (set_State DeploymentStateRunning (status (dep s4))) (dep s4);
                 wld := wld s4 |} in
    let '(err, s6) := updateCRStatus s5 in
    let s7 := match err with
              | Some err => snd (log (logLine LWarn (Some err) "update initial CR status failed") s6)
              | None => s6
              end in
    (true, snd (log (logLine LInfo None "start running...") s7)).
Proof.
  simpl. intros Hpre.
  destruct (invoke CallCreateServices _ s) as [[e0|] s1] eqn:H0; [discriminate|].
  destruct (invoke CallCreateInitialMembers _ s1) as [[e1|] s2] eqn:H1; [discriminate|].
  destruct (invoke CallEnsurePVCs _ s2) as [[e2|] s3] eqn:H2; [discriminate|].
  destruct (invoke CallEnsurePods _ s3) as [[e3|] s4'] eqn:H3; [discriminate|].
  injection Hpre as <-. unfold run_startup.
  unfold mbind at 1, M_bind. rewrite H0.
  unfold mbind at 1, M_bind. rewrite H1.
  unfold mbind at 1, M_bind. rewrite H2.
  unfold mbind at 1, M_bind. rewrite H3.
  unfold mbind, M_bind, mret, M_ret, modifyDep. simpl.
  destruct (updateCRStatus _) as [[err|] s6]; reflexivity.
Qed.

Lemma run_startup_fails_at (k : nat) (s sk sf : St Srv) (e : error) :
  (k < 4)%nat ->
  startupPrefix k s = Some sk ->
  startupStep k sk = (Some e, sf) ->
  exists msg,
    msg <> "start running..."
    /\ run_startup s = (false, snd (failOnError e msg sf)).
Proof.
  intros Hk Hpre Hstep.
  destruct k as [|[|[|[|k]]]]; try lia; simpl in Hpre, Hstep.
  - injection Hpre as <-. exists "Failed to create services".
    split; [discriminate|]. unfold run_startup.
    unfold mbind at 1, M_bind. rewrite Hstep. unfold mbind, M_bind, mret, M_ret.
    by destruct (failOnError _ _ _).
  - destruct (invoke CallCreateServices _ s) as [[e0|] s1] eqn:H0; [discriminate|].
    injection Hpre as <-. exists "Failed to create initial members".
    split; [discriminate|]. unfold run_startup.
    unfold mbind at 1, M_bind. rewrite H0.
    unfold mbind at 1, M_bind. rewrite Hstep. unfold mbind, M_bind, mret, M_ret.
    by destruct (failOnError _ _ _).
  - destruct (invoke CallCreateServices _ s) as [[e0|] s1] eqn:H0; [discriminate|].
    destruct (invoke CallCreateInitialMembers _ s1) as [[e1|] s2] eqn:H1; [discriminate|].
    injection Hpre as <-. exists "Failed to create persistent volume claims".
    split; [discriminate|]. unfold run_startup.
    unfold mbind at 1, M_bind. rewrite H0.
    unfold mbind at 1, M_bind. rewrite H1.
    unfold mbind at 1, M_bind. rewrite Hstep. unfold mbind, M_bind, mret, M_ret.
    by destruct (failOnError _ _ _).
  - destruct (invoke CallCreateServices _ s) as [[e0|] s1] eqn:H0; [discriminate|].
    destruct (invoke CallCreateInitialMembers _ s1) as [[e1|] s2] eqn:H1; [discriminate|].
    destruct (invoke CallEnsurePVCs _ s2) as [[e2|] s3] eqn:H2; [discriminate|].
    injection Hpre as <-. exists "Failed to create pods".
    split; [discriminate|]. unfold run_startup.
    unfold mbind at 1, M_bind. rewrite H0.
    unfold mbind at 1, M_bind. rewrite H1.
    unfold mbind at 1, M_bind. rewrite H2.
    unfold mbind at 1, M_bind. rewrite Hstep. unfold mbind, M_bind, mret, M_ret.
    by destruct (failOnError _ _ _).
Qed.

(** C3. If one of the four startup steps is the first to return an
    error, [run] makes the text of that error the reason of the status,
    sets the state to [Failed], takes none of the steps that follow,
    does not reach the assignment of [Running] nor the event loop, and
    returns; what it sends to the store meanwhile carries [Failed]. *)
Theorem run_startup_step_failure (k : nat) (s sk sf : St Srv) (e : error) :
  (k < 4)%nat ->
  startupPrefix k s = Some sk ->
  startupStep k sk = (Some e, sf) ->
  exists s_end,
    run_startup s = (false, s_end)
    /\ (forall sched, run sched s = Some (Return, s_end))
    /\ Reason (status (dep s_end)) = Error e
    /\ State (status (dep s_end)) = DeploymentStateFailed
    /\ State (status (dep s_end)) <> DeploymentStateRunning
    /\ Members (status (dep s_end)) = Members (status (dep sf))
    /\ eventCh (dep s_end) = eventCh (dep sf)
    /\ inspectTrigger (dep s_end) = inspectTrigger (dep sf)
    /\ (exists cs, calls (wld s_end) = calls (wld s) ++ firstn (S k) startupCalls ++ cs
                   /\ Forall publishesFailed cs)
    /\ (exists ls, logs (wld s_end) = logs (wld s) ++ ls
                   /\ Forall (fun l => logMsg l <> "start running...") ls).
Proof.
  intros Hk Hpre Hstep.
  destruct (run_startup_fails_at k s sk sf e Hk Hpre Hstep) as (msg & Hmsg & Hrun).
  destruct (failOnError_spec e msg sf Hmsg)
    as (Hr & Hs & Hm & Hq & _ & Ht & (cs & Hc & Hcs) & (ls & Hl & Hls)).
  destruct (startupPrefix_calls k s sk ltac:(lia) Hpre) as [Hck Hlk].
  destruct (startupStep_calls k sk sf (Some e) Hk Hstep) as [Hcf Hlf].
  exists (snd (failOnError e msg sf)).
  split; [exact Hrun|]. split.
  { intros sched. unfold run. by rewrite Hrun. }
  split; [exact Hr|]. split; [exact Hs|]. split; [rewrite Hs; discriminate|].
  split; [exact Hm|]. split; [exact Hq|]. split; [exact Ht|]. split.
  - exists cs. split; [|exact Hcs].
    rewrite Hc, Hcf, Hck, <- !app_assoc. f_equal. rewrite app_assoc. f_equal.
    destruct k as [|[|[|[|k]]]]; try lia; reflexivity.
  - exists ls. split; [|exact Hls]. by rewrite Hl, Hlf, Hlk.
Qed.

End Startup.

Lemma run_startup_step_failure_witness :
  let boom := StatusError Other "persistentvolumeclaims is forbidden" in
  let s := Fake.state
             (Fake.deployment (Fake.object "1" (Fake.statusOf "" Fake.threeMembers))
                              (Fake.statusOf "" Fake.threeMembers) [] false)
             {| Fake.updateReplies :=
                  [inl (Fake.object "2" (Fake.statusOf DeploymentStateFailed Fake.threeMembers))];
                Fake.getReplies := [] |} in
  exists s_end,
    run_startup (U := Fake.causeUtil) (C := Fake.cluster)
                (R := Fake.resources None None (Some boom) None None)
                (B := Fake.backoff 1) s
    = (false, s_end)
    /\ Reason (status (dep s_end)) = "persistentvolumeclaims is forbidden"
    /\ State (status (dep s_end)) = DeploymentStateFailed.
Proof.
  intros boom s.
  destruct (run_startup_step_failure
              (U := Fake.causeUtil) (C := Fake.cluster)
              (R := Fake.resources None None (Some boom) None None)
              (B := Fake.backoff 1)
              2 s
              (snd (startupStep (R := Fake.resources None None (Some boom) None None) 1
                      (snd (startupStep (R := Fake.resources None None (Some boom) None None)
                              0 s))))
              (requested CallEnsurePVCs (srv (wld s))
                 (requested CallCreateInitialMembers (srv (wld s))
                    (requested CallCreateServices (srv (wld s)) s)))
              boom)
    as (s_end & Hrun & _ & Hreason & Hstate & _).
  - lia.
  - vm_compute. reflexivity.
  - vm_compute. reflexivity.
  - exists s_end. split; [exact Hrun|]. split; [exact Hreason | exact Hstate].
Defined.

(* ================================================================== *)
(** * The ordinary status update and a resource that is gone *)

Section PublishGone.

Context {U : Util} {Srv : Type} {C : Cluster Srv} {R : Resources Srv} {B : Backoff}.

(** C2, as the code has it.  When the backing store reports that the
    resource is gone, the ordinary status update returns an error as
    after any other failure of its request: the store's error handed
    to [fmt.Errorf] and [maskAny].  It has sent one update request and
    leaves the deployment, the cached object included, as it was.  Its
    caller at startup, [run], logs that error as a warning and goes on
    into the event loop with the state [Running]. *)
Theorem updateCRStatus_NotFound_left_to_caller (s : St Srv) (e : error) (srv1 : Srv) :
  let ns := Namespace (apiObject (dep s)) in
  let update := with_Status (status (dep s)) (apiObject (dep s)) in
  Status (apiObject (dep s)) <> status (dep s) ->
  crUpdate ns update (srv (wld s)) = (inr e, srv1) ->
  IsNotFound e = true ->
  updateCRStatus s = (Some (updateError e), requested (CallUpdate ns update) srv1 s)
  /\ fst (updateCRStatus s) <> None
  /\ dep (snd (updateCRStatus s)) = dep s
  /\ forall s0 s4 : St Srv,
       startupPrefix 4 s0 = Some s4 ->
       s = {| dep := set_status (set_State DeploymentStateRunning (status (dep s4))) (dep s4);
              wld := wld s4 |} ->
       exists s',
         run_startup s0 = (true, s')
         /\ (forall sched, run sched s0 = run_loop sched s')
         /\ dep s' = dep s
         /\ State (status (dep s')) = DeploymentStateRunning
         /\ calls (wld s') = calls (wld s0) ++ startupCalls ++ [CallUpdate ns update]
         /\ logs (wld s')
            = logs (wld s0)
              ++ [logLine LWarn (Some (updateError e)) "update initial CR status failed";
                  logLine LInfo None "start running..."].
Proof.
  intros ns update Hne Hupd _.
  pose proof (updateCRStatus_fails s e srv1 Hne Hupd) as Hfail.
  fold ns update in Hfail. rewrite Hfail.
  split; [reflexivity|]. split; [discriminate|]. split; [reflexivity|].
  intros s0 s4 Hpre Hs.
  destruct (startupPrefix_calls 4 s0 s4 ltac:(lia) Hpre) as [Hc Hl].
  change (firstn 4 startupCalls) with startupCalls in Hc.
  pose proof (run_startup_after_steps s0 s4 Hpre) as Hafter. cbv zeta in Hafter.
  rewrite <- Hs, Hfail in Hafter.
  eexists. split; [exact Hafter|]. split.
  { intros sched. unfold run. by rewrite Hafter. }
  split; [reflexivity|]. split; [by rewrite Hs|].
  assert (Hw : wld s = wld s4) by (by rewrite Hs).
  cbn. rewrite Hw, Hc, Hl, <- !app_assoc. split; reflexivity.
Qed.

End PublishGone.

(** C2 fails for the ordinary status update: the store reports that the
    resource is gone, [k8sutil.IsNotFound] holds of the error it
    returns, and [updateCRStatus] returns an error. *)
Lemma updateCRStatus_NotFound_is_error :
  let s := markedFailed (reporting notFoundError [] []) in
  let ns := Namespace (apiObject (dep s)) in
  let update := with_Status (status (dep s)) (apiObject (dep s)) in
  fst (crUpdate (Cluster := Fake.cluster) ns update (srv (wld s))) = inr notFoundError
  /\ IsNotFound (Util := Fake.causeUtil) notFoundError = true
  /\ fst (updateCRStatus (U := Fake.causeUtil) (C := Fake.cluster) s)
     = Some (updateError (U := Fake.causeUtil) notFoundError)
  /\ fst (updateCRStatus (U := Fake.causeUtil) (C := Fake.cluster) s) <> None.
Proof. vm_compute. repeat split; discriminate. Qed.

Lemma updateCRStatus_NotFound_left_to_caller_witness :
  let s0 := Fake.state
              (Fake.deployment (Fake.object "1" (Fake.statusOf "" Fake.threeMembers))
                               (Fake.statusOf "" Fake.threeMembers) [] false)
              {| Fake.updateReplies := [inr notFoundError]; Fake.getReplies := [] |} in
  exists s',
    run_startup (U := Fake.causeUtil) (C := Fake.cluster)
                (R := Fake.resources None None None None None) (B := Fake.backoff 1) s0
    = (true, s')
    /\ logs (wld s')
       = [logLine LWarn (Some (updateError (U := Fake.causeUtil) notFoundError))
                  "update initial CR status failed";
          logLine LInfo None "start running..."]
    /\ apiObject (dep s') = Fake.object "1" (Fake.statusOf "" Fake.threeMembers).
Proof.
  intros s0.
  set (s4 := requested CallEnsurePods (srv (wld s0))
               (requested CallEnsurePVCs (srv (wld s0))
                  (requested CallCreateInitialMembers (srv (wld s0))
                     (requested CallCreateServices (srv (wld s0)) s0)))).
  set (s := {| dep := set_status (set_State DeploymentStateRunning (status (dep s4))) (dep s4);
               wld := wld s4 |}).
  destruct (updateCRStatus_NotFound_left_to_caller
              (U := Fake.causeUtil) (C := Fake.cluster)
              (R := Fake.resources None None None None None) (B := Fake.backoff 1)
              s notFoundError {| Fake.updateReplies := []; Fake.getReplies := [] |})
    as (_ & _ & _ & Hrun).
  - discriminate.
  - reflexivity.
  - reflexivity.
  - destruct (Hrun s0 s4 eq_refl eq_refl) as (s' & Hstart & _ & Hdep & _ & _ & Hlogs).
    exists s'. split; [exact Hstart|]. split; [exact Hlogs|]. by rewrite Hdep.
Defined.

(* ================================================================== *)
(** * Properties of the loop with a clock *)

Section Clock.

Context {U : Util} {Srv : Type} {C : Cluster Srv} {R : Resources Srv} {B : Backoff}.

Lemma readyNow_false (d : Deployment) :
  readyNow d = false ->
  stopCh d = false /\ eventCh d = [] /\ trigger.pending (inspectTrigger d) = false.
Proof.
  unfold readyNow, trigger.DoneReady.
  destruct (stopCh d), (eventCh d), (trigger.pending (inspectTrigger d)); simpl; intros H;
    try discriminate; auto.
Qed.

Lemma filter_all_later (ta : Z) (rest : list (Z * deploymentEvent)) :
  Forall (fun a => ta < fst a) rest ->
  List.filter (fun a => fst a <=? ta) rest = []
  /\ List.filter (fun a => ta <? fst a) rest = rest.
Proof.
  induction 1 as [|a rest Ha _ [IH1 IH2]]; simpl; [done|].
  destruct (Z.leb_spec (fst a) ta); [lia|].
  destruct (Z.ltb_spec ta (fst a)); [|lia].
  by rewrite IH1, IH2.
Qed.

(** A pass that starts with nothing ready while the next event is less
    than [inspectionInterval] away: the [select] wakes on that event,
    and no other case is ready; the timer made for this pass is
    dropped with it. *)
Lemma pass_before_timer (T : Timed) (ta : Z) (ev : deploymentEvent)
    (rest : list (Z * deploymentEvent)) (b : Branch) :
  readyNow (dep (tst T)) = false ->
  arrivals T = (ta, ev) :: rest ->
  now T < ta < now T + inspectionInterval ->
  evType ev = eventArangoDeploymentUpdated ->
  Forall (fun a => ta < fst a) rest ->
  run_select_at b T
  = match b with
    | BrEvent => Some (Continue, {| tst := tst T; now := ta; arrivals := rest |})
    | _ => None
    end.
Proof.
  intros Hidle Harr Hta Hev Hrest.
  destruct (readyNow_false _ Hidle) as (Hstop & Hq & Hpend).
  destruct (filter_all_later ta rest Hrest) as [Hdel Hout].
  unfold run_select_at, wakeTime. rewrite Hidle, Harr.
  replace (Z.min (Z.max ta (now T)) (now T + inspectionInterval)) with ta by lia.
  unfold delivered, outstanding. simpl List.filter.
  destruct (Z.leb_spec ta ta); [|lia]. destruct (Z.ltb_spec ta ta); [lia|].
  rewrite Hdel, Hout, Hq. simpl.
  destruct b; simpl.
  - by rewrite Hstop.
  - rewrite run_event_updated by exact Hev. do 3 f_equal.
    destruct T as [[d w] t arr]. simpl in *. f_equal.
    destruct d; simpl in *. by subst.
  - unfold trigger.DoneReady. by rewrite Hpend.
  - destruct (Z.leb_spec (now T + inspectionInterval) ta); [lia|reflexivity].
Qed.

(** While such events keep arriving, every pass is an event pass: the
    timer case is never taken and the trigger is never armed. *)
Lemma frequent_events_starve_timer (arr : list (Z * deploymentEvent)) :
  forall (T : Timed) (sched : list Branch) (o : Outcome) (T' : Timed),
    readyNow (dep (tst T)) = false ->
    arrivals T = arr ->
    frequentUpdates (now T) arr ->
    (length sched <= length arr)%nat ->
    run_loop_at sched T = Some (o, T') ->
    sched = repeat BrEvent (length sched)
    /\ o = Continue
    /\ tst T' = tst T
    /\ arrivals T' = skipn (length sched) arr.
Proof.
  induction arr as [|[ta ev] rest IH]; intros T sched o T' Hidle Harr Hfreq Hlen Hrun.
  - destruct sched; [|simpl in Hlen; lia]. simpl in Hrun. injection Hrun as <- <-. auto.
  - destruct sched as [|b sched].
    { simpl in Hrun. injection Hrun as <- <-. auto. }
    destruct Hfreq as (Hta & Hev & Hrest & Hfreq).
    simpl in Hrun. rewrite (pass_before_timer T ta ev rest b Hidle Harr Hta Hev Hrest) in Hrun.
    destruct b; try discriminate.
    destruct (IH {| tst := tst T; now := ta; arrivals := rest |} sched o T')
      as (Hs & Ho & Hst & Harr'); simpl; auto.
    { simpl in Hlen. lia. }
    simpl. repeat split; auto. by rewrite <- Hs.
Qed.

Lemma last_nonempty_default {A} (l : list A) (x d d' : A) :
  List.last (x :: l) d = List.last (x :: l) d'.
Proof.
  revert x. induction l as [|y l IH]; intros x; [reflexivity|].
  change (List.last (y :: l) d = List.last (y :: l) d'). apply IH.
Qed.

Lemma frequent_events_run (arr : list (Z * deploymentEvent)) :
  forall (T : Timed),
    readyNow (dep (tst T)) = false ->
    arrivals T = arr ->
    frequentUpdates (now T) arr ->
    run_loop_at (repeat BrEvent (length arr)) T
    = Some (Continue, {| tst := tst T; now := List.last (map fst arr) (now T); arrivals := [] |}).
Proof.
  induction arr as [|[ta ev] rest IH]; intros T Hidle Harr Hfreq.
  - simpl. destruct T; simpl in *. by subst.
  - destruct Hfreq as (Hta & Hev & Hrest & Hfreq).
    simpl repeat. simpl run_loop_at.
    rewrite (pass_before_timer T ta ev rest BrEvent Hidle Harr Hta Hev Hrest).
    rewrite IH; auto. do 3 f_equal.
    destruct rest as [|[tb eb] rest']; [reflexivity|].
    simpl map.
    change (List.last (tb :: map fst rest') ta = List.last (tb :: map fst rest') (now T)).
    apply last_nonempty_default.
Qed.

(** With nothing ready and no event to come, the [select] wakes when
    the timer of the pass fires, and the pass arms the trigger. *)
Lemma idle_pass_fires_timer (T : Timed) (b : Branch) :
  readyNow (dep (tst T)) = false ->
  arrivals T = [] ->
  run_select_at b T
  = match b with
    | BrTimer =>
        Some (Continue,
              {| tst := {| dep := set_inspectTrigger {| trigger.pending := true |} (dep (tst T));
                           wld := wld (tst T) |};
                 now := now T + inspectionInterval;
                 arrivals := [] |})
    | _ => None
    end.
Proof.
  intros Hidle Harr.
  destruct (readyNow_false _ Hidle) as (Hstop & Hq & Hpend).
  unfold run_select_at, wakeTime. rewrite Hidle, Harr. simpl.
  rewrite Hq. destruct b; simpl.
  - by rewrite Hstop.
  - reflexivity.
  - unfold trigger.DoneReady. by rewrite Hpend.
  - rewrite Z.leb_refl. unfold_M. simpl. do 3 f_equal.
    destruct T as [[d w] t arr]. simpl in *. f_equal.
    destruct d; simpl in *. by subst.
Qed.

End Clock.

Lemma every30s_frequent (n : nat) (t : Z) : frequentUpdates t (every30s n t).
Proof.
  revert t. induction n as [|n IH]; intros t; simpl; [exact I|].
  split; [unfold inspectionInterval, Minute, Second; lia|].
  split; [reflexivity|]. split; [|apply IH].
  clear IH. generalize (t + 30 * Second). intros t'.
  assert (H : forall k, t' <= k -> Forall (fun a => t' < fst a) (every30s n k)).
  { induction n as [|n IHn]; intros k Hk; simpl; constructor.
    - simpl. unfold Second. lia.
    - apply IHn. unfold Second. lia. }
  apply H. lia.
Qed.

(** C7 fails under a stream of events: with an update of the deployment
    arriving every 30 seconds, six passes of the loop take three times
    [inspectionInterval]; no choice of the [select]s takes the timer
    case in them, and the inspect trigger is never armed. *)
Theorem timer_starved_by_frequent_events :
  let T0 := {| tst := Fake.running; now := 0; arrivals := every30s 6 0 |} in
  (exists T',
     run_loop_at (U := Fake.causeUtil) (C := Fake.cluster)
                 (R := Fake.resources None None None None None) (B := Fake.backoff 1)
                 (repeat BrEvent 6) T0
     = Some (Continue, T')
     /\ now T' = 3 * inspectionInterval
     /\ trigger.pending (inspectTrigger (dep (tst T'))) = false)
  /\ (forall sched o T',
        (length sched <= 6)%nat ->
        run_loop_at (U := Fake.causeUtil) (C := Fake.cluster)
                    (R := Fake.resources None None None None None) (B := Fake.backoff 1)
                    sched T0
        = Some (o, T') ->
        ~ In BrTimer sched
        /\ trigger.pending (inspectTrigger (dep (tst T'))) = false).
Proof.
  intros T0. split.
  - eexists. split; [|split].
    + apply (frequent_events_run (every30s 6 0) T0); [reflexivity|reflexivity|].
      apply every30s_frequent.
    + reflexivity.
    + reflexivity.
  - intros sched o T' Hlen Hrun.
    destruct (frequent_events_starve_timer
                (U := Fake.causeUtil) (C := Fake.cluster)
                (R := Fake.resources None None None None None) (B := Fake.backoff 1)
                (every30s 6 0) T0 sched o T')
      as (Hs & _ & Hst & _); auto.
    { apply every30s_frequent. }
    split.
    + rewrite Hs. intros Hin. apply repeat_spec in Hin. discriminate.
    + by rewrite Hst.
Qed.

(* ================================================================== *)
(** * The model on concrete inputs *)

Example Error_updateError :
  Error (updateError (U := Fake.causeUtil) conflictError)
  = "failed to update ArangoDeployment status: the object has been modified".
Proof. reflexivity. Qed.

(** The 80th event in the queue raises no warning, the 81st does. *)
Example send_80th_and_81st :
  let queue n :=
    Fake.state
      (Fake.deployment (Fake.object "1" (Fake.statusOf DeploymentStateRunning Fake.noMembers))
                       (Fake.statusOf DeploymentStateRunning Fake.noMembers)
                       (repeat (Fake.podEvent eventPodAdded) n) false)
      {| Fake.updateReplies := []; Fake.getReplies := [] |} in
  (logs ∘ wld) <$> send SendEnqueue (Fake.podEvent eventPodUpdated) (queue 79%nat) = Some []
  /\ (logs ∘ wld) <$> send SendEnqueue (Fake.podEvent eventPodUpdated) (queue 80%nat)
     = Some [saturationWarning 81]
  /\ send SendEnqueue (Fake.podEvent eventPodUpdated) (queue 100%nat) = None.
Proof. vm_compute. repeat split. Qed.

(** A startup without failure reaches the loop in state [Running], and
    the published object is cached. *)
Example run_startup_succeeds :
  let stored := Fake.object "2" (Fake.statusOf DeploymentStateRunning Fake.threeMembers) in
  let s := Fake.state
             (Fake.deployment (Fake.object "1" (Fake.statusOf "" Fake.threeMembers))
                              (Fake.statusOf "" Fake.threeMembers) [] false)
             {| Fake.updateReplies := [inl stored]; Fake.getReplies := [] |} in
  let r := run_startup (U := Fake.causeUtil) (C := Fake.cluster)
                       (R := Fake.resources None None None None None)
                       (B := Fake.backoff 1) s in
  fst r = true
  /\ State (status (dep (snd r))) = DeploymentStateRunning
  /\ apiObject (dep (snd r)) = stored
  /\ List.filter (fun c => match c with CallUpdate _ _ | CallGet _ _ => false | _ => true end)
                 (calls (wld (snd r)))
     = startupCalls.
Proof. vm_compute. repeat split. Qed.

(** A pod event and then the inspection it asked for, then the stop. *)
Example run_loop_pod_event_then_inspect :
  let s := Fake.state
             (Fake.deployment
                (Fake.object "1" (Fake.statusOf DeploymentStateRunning Fake.threeMembers))
                (Fake.statusOf DeploymentStateRunning Fake.threeMembers)
                [Fake.podEvent eventPodDeleted] false)
             {| Fake.updateReplies := []; Fake.getReplies := [] |} in
  (fun r => (fst r, calls (wld (snd r))))
    <$> run_loop (U := Fake.causeUtil) (C := Fake.cluster)
                 (R := Fake.resources None None None None None) (B := Fake.backoff 1)
                 [BrEvent; BrInspect] s
  = Some (Continue, [CallInspectPods; CallEnsurePods])
  /\ run_loop (U := Fake.causeUtil) (C := Fake.cluster)
              (R := Fake.resources None None None None None) (B := Fake.backoff 1)
              [BrInspect] s
     = None.
Proof. vm_compute. repeat split. Qed.

(* ================================================================== *)
(** * Further properties of the accessors *)

Section MoreCounting.

Lemma count_loop_of {A} (p : A -> bool) (f : Z -> A -> Z) :
  (forall c a, f c a = if p a then GoInt.incr c else c) ->
  forall l c,
    0 <= c -> c + GoInt.len l <= GoInt.max_int ->
    fold_left f l c = c + GoInt.len (List.filter p l).
Proof.
  intros Hf l. induction l as [|a l IH]; intros c Hc Hfit; simpl.
  - unfold GoInt.len. simpl. lia.
  - unfold GoInt.len in *. simpl length in Hfit. rewrite Hf.
    destruct (p a) eqn:Hp.
    + unfold GoInt.incr. rewrite wrap_small by (unfold GoInt.min_int, GoInt.max_int in *; lia).
      rewrite IH by lia. simpl length. lia.
    + rewrite IH by lia. lia.
Qed.

Lemma filter_le_length {A} (p : A -> bool) (l : list A) :
  GoInt.len (List.filter p l) <= GoInt.len l.
Proof.
  unfold GoInt.len. apply inj_le.
  induction l as [|x l IH]; simpl; [lia|]. destruct (p x); simpl; lia.
Qed.

(** The two nested loops of [ReadyVolumeCount] over a member list. *)
Lemma ready_claims_loop (pvcs : list PersistentVolumeClaim) (l : list MemberStatus) :
  forall c,
    0 <= c ->
    c + GoInt.len l * GoInt.len pvcs <= GoInt.max_int ->
    fold_left
      (fun count m =>
         if String.eqb (PersistentVolumeClaimName m) "" then count
         else
           fold_left
             (fun count pvc =>
                if String.eqb (pvcName pvc) (PersistentVolumeClaimName m) then
                  if String.eqb (pvcPhase pvc) ClaimBound then GoInt.incr count
                  else count
                else count)
             pvcs count)
      l c
    = c + GoInt.len (readyClaims pvcs l)
    /\ GoInt.len (readyClaims pvcs l) <= GoInt.len l * GoInt.len pvcs.
Proof.
  induction l as [|m l IH]; intros c Hc Hfit.
  - simpl. unfold GoInt.len. simpl. lia.
  - assert (Hlen : GoInt.len (m :: l) = 1 + GoInt.len l)
      by (unfold GoInt.len; simpl length; lia).
    rewrite Hlen in *.
    assert (Hp : 0 <= GoInt.len pvcs) by (unfold GoInt.len; lia).
    assert (Hl : 0 <= GoInt.len l) by (unfold GoInt.len; lia).
    pose proof (filter_le_length
                  (fun pvc => String.eqb (pvcName pvc) (PersistentVolumeClaimName m)
                              && String.eqb (pvcPhase pvc) ClaimBound) pvcs) as Hb.
    fold (boundClaimsOf pvcs m) in Hb.
    assert (Hb' : 0 <= GoInt.len (boundClaimsOf pvcs m)) by (unfold GoInt.len; lia).
    assert (Hfit' : c + GoInt.len pvcs + GoInt.len l * GoInt.len pvcs <= GoInt.max_int)
      by (rewrite Z.mul_add_distr_r in Hfit; lia).
    assert (Hprod : 0 <= GoInt.len l * GoInt.len pvcs) by (apply Z.mul_nonneg_nonneg; lia).
    simpl fold_left. unfold readyClaims. simpl flat_map. fold (readyClaims pvcs l).
    unfold hasClaim.
    destruct (String.eqb (PersistentVolumeClaimName m) ""); simpl negb; cbv iota.
    + destruct (IH c Hc ltac:(lia)) as [-> Hle]. simpl app.
      split; [reflexivity | rewrite Z.mul_add_distr_r; lia].
    + rewrite (count_loop_of
                 (fun pvc => String.eqb (pvcName pvc) (PersistentVolumeClaimName m)
                             && String.eqb (pvcPhase pvc) ClaimBound));
        [| intros c0 a; destruct (String.eqb (pvcName a) _), (String.eqb (pvcPhase a) _);
           reflexivity
         | exact Hc | lia].
      fold (boundClaimsOf pvcs m).
      destruct (IH (c + GoInt.len (boundClaimsOf pvcs m))) as [-> Hle]; [lia | lia |].
      assert (Happ : GoInt.len (boundClaimsOf pvcs m ++ readyClaims pvcs l)
                     = GoInt.len (boundClaimsOf pvcs m) + GoInt.len (readyClaims pvcs l))
        by (unfold GoInt.len; rewrite length_app; lia).
      rewrite Happ. split; [lia | rewrite Z.mul_add_distr_r; lia].
Qed.

(** Among claims with distinct names at most one carries a given name. *)
Lemma boundClaimsOf_unique (pvcs : list PersistentVolumeClaim) (m : MemberStatus) :
  NoDup (map pvcName pvcs) -> (length (boundClaimsOf pvcs m) <= 1)%nat.
Proof.
  unfold boundClaimsOf. induction pvcs as [|pvc pvcs IH]; intros Hnd; simpl; [lia|].
  apply NoDup_cons in Hnd as [Hnotin Hnd]. specialize (IH Hnd).
  destruct (String.eqb_spec (pvcName pvc) (PersistentVolumeClaimName m)) as [Heq|Hne];
    simpl; [|exact IH].
  assert (Hnone : List.filter
                    (fun pvc0 => String.eqb (pvcName pvc0) (PersistentVolumeClaimName m)
                                 && String.eqb (pvcPhase pvc0) ClaimBound) pvcs = []).
  { clear IH Hnd. induction pvcs as [|q pvcs IHq]; simpl; [reflexivity|].
    destruct (String.eqb_spec (pvcName q) (PersistentVolumeClaimName m)) as [Hq|Hq]; simpl.
    - exfalso. apply Hnotin. rewrite Heq, <- Hq. simpl. left.
    - apply IHq. intros Hin. apply Hnotin. simpl. by right. }
  rewrite Hnone. destruct (String.eqb (pvcPhase pvc) ClaimBound); simpl; lia.
Qed.

Lemma readyClaims_le_claims (pvcs : list PersistentVolumeClaim) (l : list MemberStatus) :
  NoDup (map pvcName pvcs) ->
  (length (readyClaims pvcs l) <= length (List.filter hasClaim l))%nat.
Proof.
  intros Hnd. induction l as [|m l IH]; simpl; [lia|].
  rewrite length_app. destruct (hasClaim m); simpl.
  - pose proof (boundClaimsOf_unique pvcs m Hnd). lia.
  - lia.
Qed.

Lemma VolumeCount_counts (d : Deployment) :
  GoInt.len (allMembers (Members (status d))) <= GoInt.max_int ->
  VolumeCount d = GoInt.len (List.filter hasClaim (allMembers (Members (status d)))).
Proof.
  intros Hfit. unfold VolumeCount, GetStatus, ForeachServerGroup, allMembers in *.
  rewrite <- !fold_left_app.
  rewrite (count_loop_of hasClaim); [lia | reflexivity | lia | lia].
Qed.

End MoreCounting.

(** X1. For every deployment status (whose member records fit an
    [int] counter), [VolumeCount] is the number of member records,
    across all role groups, whose claim name is not empty; it is never
    negative and never more than the number of members. *)
Theorem VolumeCount_spec (d : Deployment) :
  GoInt.len (allMembers (Members (status d))) <= GoInt.max_int ->
  VolumeCount d = GoInt.len (List.filter hasClaim (allMembers (Members (status d))))
  /\ 0 <= VolumeCount d <= GoInt.len (allMembers (Members (status d))).
Proof.
  intros Hfit. rewrite (VolumeCount_counts d Hfit). split; [reflexivity|].
  split; [unfold GoInt.len; lia | apply filter_le_length].
Qed.

Lemma VolumeCount_spec_witness :
  let d := Fake.deployment
             (Fake.object "1" (Fake.statusOf api.DeploymentStateRunning Fake.threeMembers))
             (Fake.statusOf api.DeploymentStateRunning
                {| Single := []; Agents := [{| api.ID := "AGNT-1"; api.PodName := "";
                                              PersistentVolumeClaimName := "agent-1";
                                              Conditions := [] |}];
                   DBServers := [Fake.member "PRMR-1" "" []]; Coordinators := [] |})
             [] false in
  GoInt.len (allMembers (Members (status d))) <= GoInt.max_int /\ VolumeCount d = 1.
Proof.
  intros d.
  assert (Hfit : GoInt.len (allMembers (Members (status d))) <= GoInt.max_int)
    by (vm_compute; discriminate).
  split; [exact Hfit|].
  destruct (VolumeCount_spec d Hfit) as [-> _]. reflexivity.
Defined.

(** X2. [ReadyVolumeCount] counts, for every member with a claim name,
    the bound claims of that name among the claims that [GetOwnedPVCs]
    returns, whatever error comes with them: it is 0 when no claim is
    returned, and when the returned claims have distinct names it never
    exceeds [VolumeCount]. *)
Theorem ReadyVolumeCount_spec {P : OwnedPVCs} (d : Deployment) :
  let all := allMembers (Members (status d)) in
  let pvcs := fst (GetOwnedPVCs d) in
  GoInt.len all <= GoInt.max_int ->
  GoInt.len all * GoInt.len pvcs <= GoInt.max_int ->
  ReadyVolumeCount d = GoInt.len (readyClaims pvcs all)
  /\ (pvcs = [] -> ReadyVolumeCount d = 0)
  /\ (NoDup (map pvcName pvcs) -> ReadyVolumeCount d <= VolumeCount d).
Proof.
  intros all pvcs Hfit Hfit2.
  assert (Hcount : ReadyVolumeCount d = GoInt.len (readyClaims pvcs all)).
  { unfold ReadyVolumeCount, GetStatus. subst pvcs all.
    destruct (GetOwnedPVCs d) as [pvcs e]. simpl fst in *.
    unfold ForeachServerGroup, allMembers in *.
    rewrite <- !fold_left_app.
    destruct (ready_claims_loop pvcs
                (Single (Members (status d)) ++ Agents (Members (status d))
                 ++ DBServers (Members (status d)) ++ Coordinators (Members (status d)))
                0 ltac:(lia) ltac:(lia)) as [Hloop _].
    rewrite Hloop. lia. }
  split; [exact Hcount|]. split.
  - intros Hnil. rewrite Hcount, Hnil. unfold readyClaims, boundClaimsOf. simpl.
    assert (H0 : forall l : list MemberStatus,
               flat_map (fun m => if hasClaim m then @nil PersistentVolumeClaim else []) l = []).
    { induction l as [|m l IH]; simpl; [reflexivity|]. by destruct (hasClaim m). }
    by rewrite H0.
  - intros Hnd. rewrite Hcount, (VolumeCount_counts d Hfit).
    unfold GoInt.len. apply inj_le. by apply readyClaims_le_claims.
Qed.

Lemma ReadyVolumeCount_spec_witness :
  let claims := {| GetOwnedPVCs := fun _ =>
                     ([ {| pvcName := "agent-1"; pvcPhase := ClaimBound |};
                        {| pvcName := "dbserver-1"; pvcPhase := "Pending" |} ],
                      Some (StatusError Other "timeout")) |} in
  let d := Fake.deployment
             (Fake.object "1" (Fake.statusOf api.DeploymentStateRunning Fake.noMembers))
             (Fake.statusOf api.DeploymentStateRunning
                {| Single := [];
                   Agents := [{| api.ID := "AGNT-1"; api.PodName := "";
                                 PersistentVolumeClaimName := "agent-1"; Conditions := [] |}];
                   DBServers := [{| api.ID := "PRMR-1"; api.PodName := "";
                                    PersistentVolumeClaimName := "dbserver-1";
                                    Conditions := [] |}];
                   Coordinators := [Fake.member "CRDN-1" "" []] |})
             [] false in
  ReadyVolumeCount (P := claims) d = 1 /\ ReadyVolumeCount (P := claims) d <= VolumeCount d.
Proof.
  intros claims d.
  destruct (ReadyVolumeCount_spec (P := claims) d) as (Hcount & _ & Hle).
  - vm_compute. discriminate.
  - vm_compute. discriminate.
  - split; [rewrite Hcount; reflexivity|].
    apply Hle. simpl. apply NoDup_cons. split; [|apply NoDup_singleton].
    intros Hin%list_elem_of_singleton. discriminate.
Defined.

Section MoreAccessors.

Lemma len_map_positive {A B'} (f : A -> B') (l : list A) :
  (0 <? GoInt.len (map f l)) = match l with [] => false | _ :: _ => true end.
Proof.
  destruct l as [|x l]; [reflexivity|]. unfold GoInt.len. simpl length.
  apply Z.ltb_lt. lia.
Qed.

End MoreAccessors.

(** X3. [Members] has an entry for a role group exactly when the group
    has members, and the entry lists the identifiers of the group's
    members in their order, each tagged with the group: a group
    without members is no key of the map. *)
Theorem Deployment_Members_lookup (d : Deployment) (g : ServerGroup) :
  Deployment_Members d !! g
  = match groupMembers (Members (status d)) g with
    | [] => None
    | l => Some (map (fun m => {| member_id := api.ID m; member_group := g |}) l)
    end.
Proof.
  unfold Deployment_Members, GetStatus, ForeachServerGroup.
  rewrite !len_map_positive.
  destruct (Members (status d)) as [l1 l2 l3 l4]. simpl.
  destruct l1, l2, l3, l4, g; simpl; by simplify_map_eq.
Qed.

Lemma size_union_le (X Y : gset string) : (size (X ∪ Y) <= size X + size Y)%nat.
Proof.
  rewrite size_union_alt. apply Nat.add_le_mono_l, subseteq_size.
  intros x Hx. apply elem_of_difference in Hx. tauto.
Qed.

(** X4. [StorageClasses] returns the same list in whatever order the
    map is visited; it has one entry per distinct name of an active
    role group, hence at most three, and none when no group is
    active. *)
Theorem StorageClasses_deterministic {O : SpecOps} (MO1 MO2 : MapOrder) (d : Deployment) :
  StorageClasses (MO := MO1) d = StorageClasses (MO := MO2) d
  /\ length (StorageClasses (MO := MO1) d) = size (storageClassSet d)
  /\ (length (StorageClasses (MO := MO1) d) <= 3)%nat
  /\ (HasAgents (GetMode (GetSpec d)) = false ->
      HasDBServers (GetMode (GetSpec d)) = false ->
      HasSingleServers (GetMode (GetSpec d)) = false ->
      StorageClasses (MO := MO1) d = []).
Proof.
  assert (Hlen : forall MO : MapOrder,
             length (StorageClasses (MO := MO) d) = size (storageClassSet d)).
  { intros MO. by rewrite (StorageClasses_perm (MO := MO)). }
  split; [|split; [apply Hlen|split]].
  - unfold StorageClasses. apply sort_Strings_order_irrelevant.
    by rewrite (rangeKeys_perm (MapOrder := MO1)), (rangeKeys_perm (MapOrder := MO2)).
  - rewrite Hlen. unfold storageClassSet.
    assert (H1 : forall (b : bool) (x : string),
               (size (if b then ({[ x ]} : gset string) else ∅) <= 1)%nat).
    { intros [] x; [by rewrite size_singleton | by rewrite size_empty; lia]. }
    pose proof (H1 (HasSingleServers (GetMode (GetSpec d)))
                   (GetStorageClassName (specSingle (GetSpec d)))).
    pose proof (H1 (HasDBServers (GetMode (GetSpec d)))
                   (GetStorageClassName (specDBServers (GetSpec d)))).
    pose proof (H1 (HasAgents (GetMode (GetSpec d)))
                   (GetStorageClassName (specAgents (GetSpec d)))).
    etrans; [apply size_union_le|].
    etrans; [apply Nat.add_le_mono_r, size_union_le|]. lia.
  - intros Ha Hd Hs.
    assert (H0 : length (StorageClasses (MO := MO1) d) = 0%nat).
    { rewrite Hlen. unfold storageClassSet. rewrite Ha, Hd, Hs.
      by rewrite !union_empty_l_L, size_empty. }
    by destruct (StorageClasses d).
Qed.

Section URL.

Context {Srv : Type} {S : Services Srv} {O : SpecOps} {UO : URLOps}.

Lemma append_nonempty (a b : string) : a <> "" -> a +:+ b <> "".
Proof. destruct a; [congruence|]. discriminate. Qed.

(** X5. [DatabaseURL] makes one lookup of the external-access service
    and returns the empty string when the lookup fails, when the
    service is not of type LoadBalancer (NodePort included), when it
    has no ingress entry, or when its first entry has neither host name
    nor address; else it returns scheme, host and port of the first
    entry, the host name before the address, [https] only for a secure
    spec.  Entries after the first are never looked at. *)
Theorem DatabaseURL_spec (d : Deployment) (srv0 : Srv) :
  let name := CreateDatabaseExternalAccessServiceName (Name (apiObject d)) in
  let lookup := servicesGet (Namespace (apiObject d)) name srv0 in
  let scheme := if IsSecure (GetSpec d) then "https" else "http" in
  snd (DatabaseURL d srv0) = snd lookup
  /\ (forall err, fst lookup = inr err -> fst (DatabaseURL d srv0) = "")
  /\ (forall svc, fst lookup = inl svc ->
        svcType svc <> ServiceTypeLoadBalancer -> fst (DatabaseURL d srv0) = "")
  /\ (forall svc, fst lookup = inl svc ->
        svcIngress svc = [] -> fst (DatabaseURL d srv0) = "")
  /\ (forall svc i rest, fst lookup = inl svc ->
        svcType svc = ServiceTypeLoadBalancer ->
        svcIngress svc = i :: rest ->
        fst (DatabaseURL d srv0)
        = if String.eqb (ingressHost i) "" then ""
          else scheme +:+ "://" +:+ JoinHostPort (ingressHost i) (Itoa ArangoPort))
  /\ (fst (DatabaseURL d srv0) <> "" <->
      exists svc i rest,
        fst lookup = inl svc /\ svcType svc = ServiceTypeLoadBalancer
        /\ svcIngress svc = i :: rest /\ ingressHost i <> "").
Proof.
  intros name lookup scheme. unfold DatabaseURL. fold name. fold lookup.
  destruct lookup as [[svc|err] srv1] eqn:Hl; simpl.
  2:{ split; [reflexivity|]. split; [reflexivity|].
      split; [intros ? [=]|]. split; [intros ? [=]|]. split; [intros ? ? ? [=]|].
      split; [congruence|]. intros (svc & i & rest & [=] & _). }
  assert (Hurl : forall host, host <> "" ->
             scheme +:+ "://" +:+ JoinHostPort host (Itoa ArangoPort) <> "").
  { intros host _. apply append_nonempty. unfold scheme. by destruct (IsSecure _). }
  assert (Hscheme : (if negb (IsSecure (GetSpec d)) then "http" else "https") = scheme).
  { unfold scheme. by destruct (IsSecure _). }
  destruct (String.eqb_spec (svcType svc) ServiceTypeLoadBalancer) as [Hlb|Hlb].
  - destruct (svcIngress svc) as [|i rest] eqn:Hing.
    + simpl. split; [reflexivity|]. split; [intros ? [=]|]. split; [reflexivity|].
      split; [reflexivity|]. split; [intros ? ? ? [= <-] _ Hi; rewrite Hing in Hi; discriminate|].
      split; [congruence|]. intros (svc' & i & rest & [= <-] & _ & Hi & _).
      rewrite Hing in Hi. discriminate.
    + assert (Hhost : (if negb (String.eqb (Hostname i) "") then Hostname i else IP i)
                      = ingressHost i).
      { unfold ingressHost. by destruct (String.eqb (Hostname i) ""). }
      rewrite Hhost, Hscheme.
      destruct (String.eqb_spec (ingressHost i) "") as [He|He]; simpl.
      * split; [reflexivity|]. split; [intros ? [=]|]. split; [intros ? [= <-] Hne; contradiction|].
        split; [intros ? [= <-] Hi; rewrite Hing in Hi; discriminate|].
        split.
        { intros ? i' rest' [= <-] _ Hi. rewrite Hing in Hi. injection Hi as <- <-.
          destruct (String.eqb_spec (ingressHost i) ""); [reflexivity|contradiction]. }
        split; [congruence|]. intros (svc' & i' & rest' & [= <-] & _ & Hi & Hne).
        rewrite Hing in Hi. injection Hi as <- <-. contradiction.
      * split; [reflexivity|]. split; [intros ? [=]|]. split; [intros ? [= <-] Hne; contradiction|].
        split; [intros ? [= <-] Hi; rewrite Hing in Hi; discriminate|].
        split.
        { intros ? i' rest' [= <-] _ Hi. rewrite Hing in Hi. injection Hi as <- <-.
          destruct (String.eqb_spec (ingressHost i) ""); [contradiction|reflexivity]. }
        split; [|intros _; by apply Hurl].
        intros _. exists svc, i, rest. auto.
  - simpl. split; [reflexivity|]. split; [intros ? [=]|]. split; [reflexivity|].
    split; [reflexivity|]. split; [intros ? ? ? [= <-] Ht; contradiction|].
    split; [congruence|]. intros (svc' & i & rest & [= <-] & Ht & _). contradiction.
Qed.

End URL.

(** An address with colons is put in brackets. *)
Example JoinHostPort_ipv6 :
  JoinHostPort "fe80::1" (Itoa 8529) = "[fe80::1]:8529"
  /\ JoinHostPort "db.example.com" (Itoa 8529) = "db.example.com:8529".
Proof. split; reflexivity. Qed.

(** X6. [isOwnerOf] holds exactly of an object whose first owner
    reference carries the UID of the cached resource: an object without
    owner references is not owned, and a reference after the first one
    never makes it owned. *)
Theorem isOwnerOf_first_reference (d : Deployment) (ownerRefs : list OwnerReference) :
  (isOwnerOf d ownerRefs = true <->
   exists r rest, ownerRefs = r :: rest /\ ownerUID r = UID (apiObject d))
  /\ isOwnerOf d [] = false
  /\ (forall r rest, isOwnerOf d (r :: rest) = isOwnerOf d [r]).
Proof.
  assert (Hcons : forall r rest,
             isOwnerOf d (r :: rest) = String.eqb (ownerUID r) (UID (apiObject d))).
  { intros r rest. unfold isOwnerOf, GoInt.len. simpl length.
    destruct (Z.ltb_spec (Z.of_nat (S (length rest))) 1); [lia|reflexivity]. }
  split; [|split; [reflexivity|]].
  - destruct ownerRefs as [|r rest].
    + split; [discriminate|]. intros (r & rest & [=] & _).
    + rewrite Hcons. split.
      * intros H%String.eqb_eq. eauto.
      * intros (r' & rest' & [= <- <-] & H). by apply String.eqb_eq.
  - intros r rest. by rewrite !Hcons.
Qed.

(** X7. [New] returns the masked error of the validation and no
    deployment when the spec is not valid.  Else the deployment starts
    with the given object cached, its status that of the object, an
    empty queue and an open stop signal: publishing its status sends
    nothing, and a first event is enqueued at once and without
    warning. *)
Theorem New_spec {U : Util} {V : Validation} (config : Config) (obj : ArangoDeployment) :
  (forall err, Validate (Spec obj) = Some err ->
               New config obj = inr (maskAny err))
  /\ (Validate (Spec obj) = None ->
      exists d,
        New config obj = inl d
        /\ apiObject d = obj
        /\ status d = Status obj
        /\ (forall (Srv : Type) (C : Cluster Srv) (w : World Srv),
              updateCRStatus {| dep := d; wld := w |} = (None, {| dep := d; wld := w |}))
        /\ (forall (Srv : Type) (w : World Srv) ev,
              send SendStop ev {| dep := d; wld := w |} = None
              /\ send SendEnqueue ev {| dep := d; wld := w |}
                 = Some {| dep := set_eventCh [ev] d; wld := w |})).
Proof.
  split.
  - intros err Hv. unfold New. by rewrite Hv.
  - intros Hv. unfold New. rewrite Hv. eexists. split; [reflexivity|].
    split; [reflexivity|]. split; [reflexivity|]. split.
    + intros Srv C w. by apply updateCRStatus_unchanged.
    + intros Srv w ev. split; [reflexivity|].
      reflexivity.
Qed.

(* ================================================================== *)
(** * Properties of the query surface *)

Section HandlersProofs.

Context {D Mem : Type} {DI : server.Deployment D Mem} {MI : server.Member Mem}
        {RN : RoleNames}.

#[local] Instance groupLe_trans : Transitive server.groupLe.
Proof. intros a b c. unfold server.groupLe. apply transitivity. Qed.

#[local] Instance groupLe_total : Total server.groupLe.
Proof. intros a b. unfold server.groupLe. apply (total String.le). Qed.

Lemma append_groups (entries : list (ServerGroup * list Mem)) (r : server.DeploymentInfoDetails) :
  fold_left
    (fun result '(group, list) =>
       let memberInfos := map server.newMemberInfo list in
       {| server.Info := server.Info result;
          server.MemberGroups :=
            server.MemberGroups result
            ++ [ {| server.Group := Title (AsRole group);
                    server.GroupMembers := memberInfos |} ] |})
    entries r
  = {| server.Info := server.Info r;
       server.MemberGroups := server.MemberGroups r ++ map groupInfo entries |}.
Proof.
  revert r. induction entries as [|[g l] entries IH]; intros r; simpl.
  - rewrite app_nil_r. by destruct r.
  - rewrite IH. simpl. by rewrite <- app_assoc.
Qed.

Lemma newDeploymentInfoDetails_groups (GO : GroupMapOrder) (d : D) :
  server.MemberGroups (server.newDeploymentInfoDetails (GO := GO) d)
  = server.sortByGroup (map groupInfo (rangeGroups (server.Members d))).
Proof.
  unfold server.newDeploymentInfoDetails. by rewrite append_groups.
Qed.

(** X8. [newDeploymentInfoDetails] lists one entry per role group of
    the deployment's member map, in ascending order of the group's
    title, each with the infos of the group's members in their order;
    when distinct role groups have distinct titles the result is the
    same in whatever order the map is visited. *)
Theorem newDeploymentInfoDetails_sorted (GO : GroupMapOrder) (d : D) :
  let r := server.newDeploymentInfoDetails (GO := GO) d in
  server.Info r = server.newDeploymentInfo d
  /\ Sorted server.groupLe (server.MemberGroups r)
  /\ server.MemberGroups r ≡ₚ map groupInfo (map_to_list (server.Members d))
  /\ length (server.MemberGroups r) = size (server.Members d)
  /\ (forall GO2 : GroupMapOrder,
        (forall g1 g2, Title (AsRole g1) = Title (AsRole g2) -> g1 = g2) ->
        server.newDeploymentInfoDetails (GO := GO2) d = r).
Proof.
  intros r.
  assert (Hperm : forall GO' : GroupMapOrder,
             server.MemberGroups (server.newDeploymentInfoDetails (GO := GO') d)
             ≡ₚ map groupInfo (map_to_list (server.Members d))).
  { intros GO'. rewrite newDeploymentInfoDetails_groups. unfold server.sortByGroup.
    rewrite merge_sort_Permutation. by rewrite rangeGroups_perm. }
  assert (Hsorted : forall GO' : GroupMapOrder,
             Sorted server.groupLe
               (server.MemberGroups (server.newDeploymentInfoDetails (GO := GO') d))).
  { intros GO'. rewrite newDeploymentInfoDetails_groups. unfold server.sortByGroup.
    apply Sorted_merge_sort. apply groupLe_total. }
  assert (Hinfo : forall GO' : GroupMapOrder,
             server.Info (server.newDeploymentInfoDetails (GO := GO') d)
             = server.newDeploymentInfo d).
  { intros GO'. unfold server.newDeploymentInfoDetails. by rewrite append_groups. }
  split; [apply Hinfo|]. split; [apply Hsorted|]. split; [apply Hperm|]. split.
  - subst r. by rewrite Hperm, length_map, length_map_to_list.
  - intros GO2 Hinj.
    assert (Hgroups : server.MemberGroups (server.newDeploymentInfoDetails (GO := GO2) d)
                      = server.MemberGroups r).
    { unfold r.
      apply (Sorted_unique_strong server.groupLe);
        [| apply Hsorted | apply Hsorted | by rewrite (Hperm GO2), (Hperm GO)].
      intros x1 x2 Hx1 Hx2 H12 H21.
      rewrite Hperm in Hx1. rewrite Hperm in Hx2.
      apply list_elem_of_fmap in Hx1 as ([g1 l1] & -> & Hin1).
      apply list_elem_of_fmap in Hx2 as ([g2 l2] & -> & Hin2).
      unfold server.groupLe in H12, H21. simpl in H12, H21.
      pose proof (anti_symm String.le _ _ H12 H21) as Ht.
      apply Hinj in Ht. subst g2.
      apply elem_of_map_to_list in Hin1. apply elem_of_map_to_list in Hin2.
      congruence. }
    pose proof (Hinfo GO2) as Hi2. pose proof (Hinfo GO) as Hi1. fold r in Hi1.
    destruct (server.newDeploymentInfoDetails (GO := GO2) d), r. simpl in *. congruence.
Qed.

End HandlersProofs.

(* ================================================================== *)
(** * Further properties of the status publication *)

Section MorePublish.

Context {U : Util} {Srv : Type} {C : Cluster Srv} {R : Resources Srv} {B : Backoff}.

(** X9. [updateCRStatus] never writes the status, the queue, the stop
    signal, the trigger or the log, and sends at most one request.
    When the status in memory differs from the status of the cached
    object, it sends one update request, the cached object with only
    the status replaced, and replaces the cached object only when that
    request succeeds; when the request fails it returns the error and
    keeps the cached object.  When it has sent nothing, it returns
    success and has changed nothing. *)
Theorem updateCRStatus_frame (s : St Srv) :
  let r := updateCRStatus s in
  let s' := snd r in
  let ns := Namespace (apiObject (dep s)) in
  let update := with_Status (status (dep s)) (apiObject (dep s)) in
  status (dep s') = status (dep s)
  /\ eventCh (dep s') = eventCh (dep s)
  /\ stopCh (dep s') = stopCh (dep s)
  /\ inspectTrigger (dep s') = inspectTrigger (dep s)
  /\ logs (wld s') = logs (wld s)
  /\ (calls (wld s') = calls (wld s)
      \/ calls (wld s') = calls (wld s) ++ [CallUpdate ns update])
  /\ (calls (wld s') = calls (wld s) -> r = (None, s))
  /\ (Status (apiObject (dep s)) <> status (dep s) ->
      calls (wld s') = calls (wld s) ++ [CallUpdate ns update]
      /\ match fst (crUpdate ns update (srv (wld s))) with
         | inl o => fst r = None /\ apiObject (dep s') = o
         | inr e => fst r = Some (updateError e)
                    /\ apiObject (dep s') = apiObject (dep s)
         end).
Proof.
  intros r s' ns update. subst r s'.
  assert (Hgrow : forall c : Call, calls (wld s) ++ [c] <> calls (wld s)).
  { intros c Heq. apply (f_equal (@length Call)) in Heq.
    rewrite length_app in Heq. simpl in Heq. lia. }
  destruct (decide (Status (apiObject (dep s)) = status (dep s))) as [Heq|Hne].
  - rewrite (updateCRStatus_unchanged s Heq). simpl.
    split_and!; try reflexivity; [by left|]. intros; contradiction.
  - destruct (crUpdate ns update (srv (wld s))) as [[o|e] srv1] eqn:Hupd.
    + rewrite (updateCRStatus_succeeds s o srv1 Hne Hupd). simpl.
      split_and!; try reflexivity; [by right | by intros ?%Hgrow |].
      intros _. split; [reflexivity|]. by split.
    + rewrite (updateCRStatus_fails s e srv1 Hne Hupd). simpl.
      split_and!; try reflexivity; [by right | by intros ?%Hgrow |].
      intros _. split; [reflexivity|]. by split.
Qed.

(** X10. In an attempt of the failure report, an update error that is
    neither NotFound nor Conflict is logged as a warning and returned,
    masked, to the retry loop without any fetch; a Conflict whose fetch
    fails with an error other than NotFound returns that error in the
    same way.  In both cases the cached object stays as it was. *)
Theorem reportFailedStatus_op_propagates
    (s0 : St Srv) (e : error) (srv1 : Srv) :
  let s := markedFailed s0 in
  let ns := Namespace (apiObject (dep s)) in
  let name := Name (apiObject (dep s)) in
  let update := with_Status (status (dep s)) (apiObject (dep s)) in
  Status (apiObject (dep s)) <> status (dep s) ->
  crUpdate ns update (srv (wld s)) = (inr e, srv1) ->
  IsNotFound (updateError e) = false ->
  (IsConflict (updateError e) = false ->
   exists s',
     reportFailedStatus_op s0 = (Some (maskAny (updateError e)), s')
     /\ dep s' = dep s
     /\ calls (wld s') = calls (wld s0) ++ [CallUpdate ns update]
     /\ logs (wld s')
        = logs (wld s0)
          ++ [logLine LWarn (Some (updateError e)) "retry report status: fail to update"])
  /\ (IsConflict (updateError e) = true ->
      forall e2 srv2,
        crGet ns name srv1 = (inr e2, srv2) ->
        IsNotFound e2 = false ->
        exists s',
          reportFailedStatus_op s0 = (Some (maskAny e2), s')
          /\ dep s' = dep s
          /\ calls (wld s') = calls (wld s0) ++ [CallUpdate ns update; CallGet ns name]
          /\ logs (wld s')
             = logs (wld s0)
               ++ [logLine LWarn (Some e2) "retry report status: fail to get latest version"]).
Proof.
  intros s ns name update Hne Hupd Hnf.
  pose proof (updateCRStatus_fails s e srv1 Hne Hupd) as Hfail.
  fold ns update in Hfail.
  split.
  - intros Hcf. eexists. split.
    + rewrite op_unfold. fold s. rewrite Hfail, Hnf, Hcf. reflexivity.
    + simpl. auto.
  - intros Hcf e2 srv2 Hget Hnf2. eexists. split.
    + rewrite op_unfold. fold s. rewrite Hfail, Hnf, Hcf.
      unfold ns, name, s in Hget. simpl in Hget |- *.
      rewrite Hget, Hnf2. reflexivity.
    + simpl. rewrite <- app_assoc. auto.
Qed.

(** X11. Whatever the backing store answers and however the errors
    are classified, [failOnError] ends with the text of the error as
    the reason and [Failed] as the state of the status in memory; it
    leaves the members, the queue, the stop signal and the trigger as
    they are, logs the error first, and sends nothing but fetches and
    updates that carry [Failed]. *)
Theorem failOnError_always_fails (err : error) (msg : string) (s : St Srv) :
  let s' := snd (failOnError err msg s) in
  Reason (status (dep s')) = Error err
  /\ State (status (dep s')) = DeploymentStateFailed
  /\ Members (status (dep s')) = Members (status (dep s))
  /\ eventCh (dep s') = eventCh (dep s)
  /\ stopCh (dep s') = stopCh (dep s)
  /\ inspectTrigger (dep s') = inspectTrigger (dep s)
  /\ (exists cs, calls (wld s') = calls (wld s) ++ cs /\ Forall publishesFailed cs)
  /\ (exists ls,
        logs (wld s')
        = logs (wld s)
          ++ {| logGlobal := true; logLevel := LError; logErr := Some err;
                logInts := []; logEvent := None; logMsg := msg |}
          :: reportingLine :: ls).
Proof.
  intros s'.
  assert (Hs' : exists s1,
             s' = snd (retry_loop reportFailedStatus_op (attemptsWithin oneYear) s1)
             /\ dep s1 = set_status (set_Reason (Error err) (status (dep s))) (dep s)
             /\ calls (wld s1) = calls (wld s)
             /\ logs (wld s1)
                = logs (wld s)
                  ++ [ {| logGlobal := true; logLevel := LError; logErr := Some err;
                          logInts := []; logEvent := None; logMsg := msg |};
                       reportingLine ]).
  { eexists. split; [|split; [|split]].
    - subst s'. unfold failOnError. unfold mbind, M_bind, modifyDep. unfold log at 1. simpl.
      rewrite reportFailedStatus_unfold. simpl. unfold Retry. reflexivity.
    - reflexivity.
    - reflexivity.
    - simpl. by rewrite <- app_assoc. }
  destruct Hs' as (s1 & Heq & Hd1 & Hc1 & Hl1). rewrite Heq. clear s' Heq.
  pose proof (retry_reportedFrom (attemptsWithin oneYear) s1) as Hrep.
  set (s' := snd (retry_loop reportFailedStatus_op (attemptsWithin oneYear) s1)) in *.
  destruct Hrep as (Hs & Hq & Hp & Ht & (cs & Hc & Hcs) & (ls & Hl & _)).
  rewrite Hd1 in Hs, Hq, Hp, Ht. rewrite Hc1 in Hc. rewrite Hl1 in Hl.
  simpl in *. rewrite Hs. simpl.
  split; [reflexivity|]. split; [reflexivity|]. split; [reflexivity|].
  split; [exact Hq|]. split; [exact Hp|]. split; [exact Ht|]. split.
  - exists cs. by split.
  - exists ls. rewrite Hl, <- !app_assoc. reflexivity.
Qed.

End MorePublish.

Lemma reportFailedStatus_op_propagates_witness :
  let boom := StatusError Other "etcdserver: request timed out" in
  let s0 := reporting boom [] [] in
  exists s',
    reportFailedStatus_op (U := Fake.causeUtil) (C := Fake.cluster) s0
    = (Some (WithStack (updateError (U := Fake.causeUtil) boom)), s')
    /\ apiObject (dep s') = apiObject (dep s0)
    /\ List.filter isGet (calls (wld s')) = [].
Proof.
  intros boom s0.
  destruct (reportFailedStatus_op_propagates
              (U := Fake.causeUtil) (C := Fake.cluster)
              s0 boom {| Fake.updateReplies := []; Fake.getReplies := [] |})
    as [Hother _].
  - discriminate.
  - reflexivity.
  - reflexivity.
  - destruct (Hother eq_refl) as (s' & Hop & Hdep & Hcalls & _).
    exists s'. split; [exact Hop|]. split; [by rewrite Hdep|]. by rewrite Hcalls.
Defined.

(* ================================================================== *)
(** * Further properties of the queue and of the worker *)

Section MoreLoop.

Context {U : Util} {Srv : Type} {C : Cluster Srv} {R : Resources Srv} {B : Backoff}.

(** X12. A second [Delete] panics: the first one has closed the stop
    signal, and closing it again is a run-time panic; the deployment
    itself is left as the first [Delete] made it. *)
Theorem Delete_twice_panics (s s1 : St Srv) :
  Delete s = (Return, s1) ->
  fst (Delete s1) = Panic "close of closed channel"
  /\ dep (snd (Delete s1)) = dep s1
  /\ stopCh (dep s1) = true.
Proof.
  intros (_ & Hd & _)%Delete_closes.
  assert (Hst : stopCh (dep s1) = true) by (by rewrite Hd).
  unfold Delete. unfold_M. simpl. rewrite Hst. auto.
Qed.

(** X13. [send] never puts more than [deploymentEventQueueSize] events
    into the queue; it never touches the status or the cached object;
    and on a stopped deployment with a full queue it returns with the
    event dropped and nothing changed. *)
Theorem send_bounded_queue (c : SendCase) (ev : deploymentEvent) (s s' : St Srv) :
  send c ev s = Some s' ->
  (GoInt.len (eventCh (dep s)) <= deploymentEventQueueSize ->
   GoInt.len (eventCh (dep s')) <= deploymentEventQueueSize)
  /\ (eventCh (dep s') = eventCh (dep s) \/ eventCh (dep s') = eventCh (dep s) ++ [ev])
  /\ status (dep s') = status (dep s)
  /\ apiObject (dep s') = apiObject (dep s)
  /\ (deploymentEventQueueSize <= GoInt.len (eventCh (dep s)) ->
      stopCh (dep s) = true /\ s' = s).
Proof.
  destruct c; unfold send.
  - destruct (Z.ltb_spec (GoInt.len (eventCh (dep s))) deploymentEventQueueSize) as [Hlt|Hge];
      [|discriminate].
    intros Hs'.
    assert (Hq : eventCh (dep s') = eventCh (dep s) ++ [ev]
                 /\ status (dep s') = status (dep s)
                 /\ apiObject (dep s') = apiObject (dep s)).
    { revert Hs'. match goal with |- context [if ?b then _ else _] => destruct b end;
        intros [= <-]; simpl; auto. }
    destruct Hq as (Hq & Hst & Hobj). rewrite Hq.
    split_and!; auto; [|lia].
    intros _. unfold GoInt.len in *. rewrite length_app. simpl. lia.
  - destruct (stopCh (dep s)) eqn:Hstop; [|discriminate].
    intros [= <-]. split_and!; auto.
Qed.

Lemma sendAll_appends (evs : list deploymentEvent) (s s1 : St Srv) :
  sendAll evs s = Some s1 ->
  eventCh (dep s1) = eventCh (dep s) ++ evs
  /\ status (dep s1) = status (dep s)
  /\ apiObject (dep s1) = apiObject (dep s)
  /\ inspectTrigger (dep s1) = inspectTrigger (dep s)
  /\ stopCh (dep s1) = stopCh (dep s)
  /\ config (dep s1) = config (dep s)
  /\ srv (wld s1) = srv (wld s)
  /\ calls (wld s1) = calls (wld s).
Proof.
  revert s. induction evs as [|ev evs IH]; intros s; cbn [sendAll].
  - intros [= <-]. rewrite app_nil_r. auto 10.
  - destruct (send SendEnqueue ev s) as [s'|] eqn:Hsend; [|discriminate].
    intros Hall. destruct (IH s' Hall) as (Hq & Hst & Hobj & Ht & Hp & Hc & Hsrv & Hcalls).
    assert (Hs' : eventCh (dep s') = eventCh (dep s) ++ [ev]
                  /\ status (dep s') = status (dep s)
                  /\ apiObject (dep s') = apiObject (dep s)
                  /\ inspectTrigger (dep s') = inspectTrigger (dep s)
                  /\ stopCh (dep s') = stopCh (dep s)
                  /\ config (dep s') = config (dep s)
                  /\ srv (wld s') = srv (wld s)
                  /\ calls (wld s') = calls (wld s)).
    { unfold send in Hsend.
      destruct (GoInt.len (eventCh (dep s)) <? deploymentEventQueueSize); [|discriminate].
      revert Hsend. match goal with |- context [if ?b then _ else _] => destruct b end;
        intros [= <-]; simpl; auto 10. }
    destruct Hs' as (Hq' & Hst' & Hobj' & Ht' & Hp' & Hc' & Hsrv' & Hcalls').
    rewrite Hq, Hq', <- app_assoc. simpl. split_and!; congruence.
Qed.

Lemma run_select_pod_event_frame_aux (s : St Srv) (event : deploymentEvent)
    (rest : list deploymentEvent) :
  eventCh (dep s) = event :: rest ->
  podEventType (evType event) ->
  exists s',
    run_select BrEvent s = Some (Continue, s')
    /\ status (dep s') = status (dep s)
    /\ apiObject (dep s') = apiObject (dep s)
    /\ wld s' = wld s
    /\ trigger.pending (inspectTrigger (dep s')) = true
    /\ eventCh (dep s') = rest
    /\ stopCh (dep s') = stopCh (dep s).
Proof.
  intros Hq Ht. unfold run_select. rewrite Hq, (run_event_pod _ _ Ht).
  eexists. split; [reflexivity|]. simpl. auto 10.
Qed.

Lemma drain_pod_events (evs : list deploymentEvent) :
  forall s : St Srv,
    Forall (fun ev => podEventType (evType ev)) evs ->
    eventCh (dep s) = evs ->
    exists s2,
      run_loop (repeat BrEvent (length evs)) s = Some (Continue, s2)
      /\ eventCh (dep s2) = []
      /\ status (dep s2) = status (dep s)
      /\ apiObject (dep s2) = apiObject (dep s)
      /\ stopCh (dep s2) = stopCh (dep s)
      /\ wld s2 = wld s
      /\ trigger.pending (inspectTrigger (dep s2))
         = match evs with
           | [] => trigger.pending (inspectTrigger (dep s))
           | _ :: _ => true
           end.
Proof.
  induction evs as [|ev evs IH]; intros s Hpod Hq.
  - exists s. simpl. auto 10.
  - apply Forall_cons in Hpod as [Hev Hpod].
    destruct (run_select_pod_event_frame_aux s ev evs Hq Hev)
      as (s1 & Hrun & Hst & Hobj & Hw & Hp & Hq1 & Hstop).
    destruct (IH s1 Hpod Hq1) as (s2 & Hloop & Hq2 & Hst2 & Hobj2 & Hstop2 & Hw2 & Hp2).
    exists s2. cbn [length repeat run_loop]. rewrite Hrun.
    split; [exact Hloop|]. split_and!; try congruence.
    rewrite Hp2. destruct evs; [exact Hp | reflexivity].
Qed.

End MoreLoop.

Lemma Delete_twice_panics_witness :
  exists s1,
    Delete Fake.running = (Return, s1)
    /\ fst (Delete s1) = Panic "close of closed channel".
Proof.
  eexists. split; [reflexivity|].
  apply (Delete_twice_panics Fake.running). reflexivity.
Defined.

Lemma send_bounded_queue_witness :
  let full :=
    Fake.state
      (Fake.deployment (Fake.object "1" (Fake.statusOf api.DeploymentStateRunning Fake.noMembers))
                       (Fake.statusOf api.DeploymentStateRunning Fake.noMembers)
                       (repeat (Fake.podEvent eventPodAdded) 100) true)
      {| Fake.updateReplies := []; Fake.getReplies := [] |} in
  send SendStop (Fake.podEvent eventPodDeleted) full = Some full
  /\ GoInt.len (eventCh (dep full)) <= deploymentEventQueueSize.
Proof.
  intros full.
  assert (Hsend : send SendStop (Fake.podEvent eventPodDeleted) full = Some full)
    by reflexivity.
  split; [exact Hsend|].
  apply (send_bounded_queue SendStop (Fake.podEvent eventPodDeleted) full full Hsend).
  vm_compute. discriminate.
Defined.

Section MoreWorker.

Context {U : Util} {Srv : Type} {C : Cluster Srv} {R : Resources Srv} {B : Backoff}.

(** The requests and log lines of an inspection pass. *)
Lemma run_inspect_effects (s : St Srv) :
  fst (run_inspect s) = Continue
  /\ exists cs ls,
       calls (wld (snd (run_inspect s))) = calls (wld s) ++ cs
       /\ List.filter (fun c => negb (isCreateEvent c)) cs = [CallInspectPods; CallEnsurePods]
       /\ List.filter isPublish cs = []
       /\ (length (List.filter isCreateEvent cs) <= 2)%nat
       /\ logs (wld (snd (run_inspect s))) = logs (wld s) ++ ls
       /\ Forall (fun l => logMsg l = "Failed to record event" /\ logLevel l = LError) ls
       /\ (length ls <= length (List.filter isCreateEvent cs))%nat.
Proof.
  unfold run_inspect, createEvent. unfold_M. simpl.
  destruct (inspectPods (dep s) (srv (wld s))) as [[[e1|] d1] srv1]; simpl;
    [destruct (eventsCreate _ srv1) as [[ee1|] srv1']; simpl|];
    (match goal with
     | |- context [ensurePods ?a ?b ?c] => destruct (ensurePods a b c) as [[[e2|] d2] srv2]
     end; simpl;
     [match goal with
      | |- context [eventsCreate ?a ?b] => destruct (eventsCreate a b) as [[ee2|] srv2']
      end; simpl|]);
    (split; [reflexivity|]);
    eexists _, _;
    (split; [rewrite <- ?app_assoc; simpl; reflexivity|]);
    (split; [reflexivity|]); (split; [reflexivity|]); (split; [simpl; lia|]);
    (split; [rewrite <- ?app_assoc; simpl; try reflexivity; symmetry; apply app_nil_r|]);
    (split; [repeat constructor | simpl; lia]).
Qed.

(** The requests of an inspection pass, one by one. *)
Lemma run_inspect_trace (s : St Srv) :
  exists e1 d1 srv1 e2 srv2,
    let srv1' := match e1 with
                 | Some err =>
                     snd (eventsCreate (NewErrorEvent "Pod inspection failed" err (apiObject d1))
                                       srv1)
                 | None => srv1
                 end in
    let s' := snd (run_inspect s) in
    inspectPods (dep s) (srv (wld s)) = (e1, d1, srv1)
    /\ ensurePods (apiObject d1) d1 srv1' = (e2, dep s', srv2)
    /\ calls (wld s')
       = calls (wld s)
         ++ [CallInspectPods]
         ++ failureEvents "Pod inspection failed" e1 (apiObject d1)
         ++ [CallEnsurePods]
         ++ failureEvents "Pod creation failed" e2 (apiObject (dep s')).
Proof.
  unfold run_inspect, createEvent. unfold_M. simpl.
  destruct (inspectPods (dep s) (srv (wld s))) as [[e1 d1] srv1]. exists e1, d1, srv1.
  destruct e1 as [err1|]; simpl.
  - destruct (eventsCreate _ srv1) as [ee1 srv1'] eqn:Hev1. simpl.
    destruct (ensurePods (apiObject d1) d1 srv1') as [[e2 d2] srv2] eqn:Hens.
    exists e2, srv2.
    destruct ee1 as [ee1|], e2 as [err2|]; simpl; rewrite ?Hens; simpl;
      try (destruct (eventsCreate _ srv2) as [[ee2|] srv2']; simpl);
      rewrite <- ?app_assoc; simpl; auto.
  - destruct (ensurePods (apiObject d1) d1 srv1) as [[e2 d2] srv2] eqn:Hens.
    exists e2, srv2.
    destruct e2 as [err2|]; simpl;
      try (destruct (eventsCreate _ srv2) as [[ee2|] srv2']; simpl);
      rewrite <- ?app_assoc; simpl; auto.
Qed.

Lemma run_inspect_keeps (s : St Srv) :
  keepsLoopState inspectPods ->
  (forall o, keepsLoopState (ensurePods o)) ->
  fst (run_inspect s) = Continue
  /\ eventCh (dep (snd (run_inspect s))) = eventCh (dep s)
  /\ stopCh (dep (snd (run_inspect s))) = stopCh (dep s)
  /\ inspectTrigger (dep (snd (run_inspect s))) = inspectTrigger (dep s).
Proof.
  intros Hins Hens.
  destruct (run_inspect_effects s) as (Ho & _).
  destruct (run_inspect_trace s) as (e1 & d1 & srv1 & e2 & srv2 & H1 & H2 & _).
  cbv zeta in H1, H2.
  specialize (Hins (dep s) (srv (wld s))). rewrite H1 in Hins. simpl in Hins.
  match type of H2 with ensurePods ?o ?d ?x = _ => specialize (Hens o d x) end.
  rewrite H2 in Hens. simpl in Hens.
  destruct Hins as (Hq1 & Hs1 & Ht1), Hens as (Hq2 & Hs2 & Ht2).
  split; [exact Ho|]. split_and!; congruence.
Qed.

Lemma run_loop_coalesces (sched : list Branch) :
  keepsLoopState inspectPods ->
  (forall o, keepsLoopState (ensurePods o)) ->
  forall (s s3 : St Srv) (o : Outcome),
    Forall (fun ev => podEventType (evType ev)) (eventCh (dep s)) ->
    Forall (fun b => b <> BrStop) sched ->
    run_loop sched s = Some (o, s3) ->
    o = Continue
    /\ eventCh (dep s3) = drop (length (List.filter isEventPass sched)) (eventCh (dep s))
    /\ (length (List.filter isInspectPass sched)
        <= (if trigger.pending (inspectTrigger (dep s)) then 1 else 0)
           + armingRuns (trigger.pending (inspectTrigger (dep s))) sched)%nat
    /\ trigger.pending (inspectTrigger (dep s3))
       = pendingAfter (trigger.pending (inspectTrigger (dep s))) sched.
Proof.
  intros Hins Hens. induction sched as [|b sched IH]; intros s s3 o Hpod Hsched; cbn [run_loop].
  - intros [= <- <-]. simpl. split_and!; auto. lia.
  - apply Forall_cons in Hsched as [Hb Hsched].
    destruct b; [contradiction| | |].
    + (* an event pass *)
      destruct (eventCh (dep s)) as [|ev rest] eqn:Hq; [unfold run_select; by rewrite Hq|].
      apply Forall_cons in Hpod as [Hev Hpod].
      destruct (run_select_pod_event_frame_aux s ev rest Hq Hev)
        as (s1 & Hrun & _ & _ & _ & Hp & Hq1 & _).
      rewrite Hrun. intros Hrest.
      rewrite <- Hq1 in Hpod.
      destruct (IH s1 s3 o Hpod Hsched Hrest) as (Ho & Hq3 & Hn & Hp3).
      rewrite Hp in Hn, Hp3. rewrite Hq1 in Hq3.
      split; [exact Ho|]. split; [exact Hq3|]. split.
      * cbn. destruct (trigger.pending (inspectTrigger (dep s))); simpl in *; lia.
      * rewrite Hp3. reflexivity.
    + (* an inspection pass *)
      unfold run_select.
      destruct (trigger.DoneReady (inspectTrigger (dep s))) eqn:Hready; [|discriminate].
      set (x := {| dep := set_inspectTrigger (trigger.Deliver (inspectTrigger (dep s))) (dep s);
                   wld := wld s |}).
      destruct (run_inspect_keeps x Hins Hens) as (Ho1 & Hq1 & _ & Ht1).
      destruct (run_inspect x) as [o1 s1]. simpl in Ho1, Hq1, Ht1. subst o1.
      intros Hrest.
      rewrite <- Hq1 in Hpod.
      destruct (IH s1 s3 o Hpod Hsched Hrest) as (Ho & Hq3 & Hn & Hp3).
      rewrite Ht1 in Hn, Hp3. simpl in Hn, Hp3. rewrite Hq1 in Hq3.
      unfold trigger.DoneReady in Hready. rewrite Hready.
      split; [exact Ho|]. split; [exact Hq3|]. split.
      * cbn. simpl in *. lia.
      * rewrite Hp3. reflexivity.
    + (* a timer pass *)
      unfold run_select. unfold_M. simpl.
      intros Hrest.
      match type of Hrest with run_loop _ ?x = _ => set (s1 := x) in * end.
      destruct (IH s1 s3 o Hpod Hsched Hrest) as (Ho & Hq3 & Hn & Hp3).
      simpl in Hn, Hp3, Hq3.
      split; [exact Ho|]. split; [exact Hq3|]. split.
      * cbn. destruct (trigger.pending (inspectTrigger (dep s))); simpl in *; lia.
      * rewrite Hp3. reflexivity.
Qed.

(** X14. Pod events are coalesced per burst.  A burst of pod events,
    sent one after the other into the empty queue of a deployment and
    received by the loop one after the other, leaves the queue empty
    and one inspection pending, with the status, the cached object and
    the backing store as before.  However the passes of the loop fall
    out, an inspection pass is made at most once per burst, that is
    per run of event and timer passes with no inspection pass in
    between (and once more if an inspection was pending at the start),
    so that pod events with an inspection pass between them are
    inspected one by one; the events are received in the order sent.
    This holds when [inspectPods] and [ensurePods] leave the queue and
    the trigger alone, and for the trigger that keeps one pending
    flag. *)
Theorem pod_event_burst_arms_once (evs : list deploymentEvent) (s s1 : St Srv) :
  evs <> [] ->
  Forall (fun ev => podEventType (evType ev)) evs ->
  eventCh (dep s) = [] ->
  sendAll evs s = Some s1 ->
  eventCh (dep s1) = evs
  /\ (exists s2,
        run_loop (repeat BrEvent (length evs)) s1 = Some (Continue, s2)
        /\ eventCh (dep s2) = []
        /\ trigger.pending (inspectTrigger (dep s2)) = true
        /\ status (dep s2) = status (dep s)
        /\ apiObject (dep s2) = apiObject (dep s)
        /\ srv (wld s2) = srv (wld s)
        /\ calls (wld s2) = calls (wld s))
  /\ (keepsLoopState inspectPods ->
      (forall o, keepsLoopState (ensurePods o)) ->
      forall sched o s3,
        Forall (fun b => b <> BrStop) sched ->
        run_loop sched s1 = Some (o, s3) ->
        let p := trigger.pending (inspectTrigger (dep s)) in
        o = Continue
        /\ eventCh (dep s3) = drop (length (List.filter isEventPass sched)) evs
        /\ (length (List.filter isInspectPass sched)
            <= (if p then 1 else 0) + armingRuns p sched)%nat
        /\ trigger.pending (inspectTrigger (dep s3)) = pendingAfter p sched).
Proof.
  intros Hne Hpod Hempty Hsend.
  destruct (sendAll_appends evs s s1 Hsend)
    as (Hq & Hst & Hobj & Htr & _ & _ & Hsrv & Hcalls).
  rewrite Hempty in Hq. simpl in Hq. split; [exact Hq|]. split.
  - destruct (drain_pod_events evs s1 Hpod Hq)
      as (s2 & Hloop & Hq2 & Hst2 & Hobj2 & _ & Hw2 & Hp2).
    exists s2. split; [exact Hloop|]. split; [exact Hq2|]. split.
    { rewrite Hp2. by destruct evs. }
    rewrite Hw2. split_and!; congruence.
  - intros Hins Hens sched o s3 Hsched Hrun p.
    rewrite <- Hq in Hpod.
    destruct (run_loop_coalesces sched Hins Hens s1 s3 o Hpod Hsched Hrun)
      as (Ho & Hq3 & Hn & Hp3).
    rewrite Htr in Hn, Hp3. rewrite Hq in Hq3. fold p in Hn, Hp3. auto.
Qed.

(** X15. An inspection pass always lets the loop go on.  It calls
    [inspectPods] and then, whether that failed or not, [ensurePods];
    a failure of [inspectPods] is sent to the event stream as a
    [Pod inspection failed] event before [ensurePods] is called, and a
    failure of [ensurePods] as a [Pod creation failed] event after it,
    each with the error and the cached object; a step that succeeds
    sends no event.  A failure to record such an event is only logged,
    and the pass sends no update or fetch of the status. *)
Theorem run_select_inspect_never_stops (s : St Srv) :
  trigger.DoneReady (inspectTrigger (dep s)) = true ->
  let d0 := set_inspectTrigger (trigger.Deliver (inspectTrigger (dep s))) (dep s) in
  exists s' e1 d1 srv1 e2 srv2,
    let srv1' := match e1 with
                 | Some err =>
                     snd (eventsCreate (NewErrorEvent "Pod inspection failed" err (apiObject d1))
                                       srv1)
                 | None => srv1
                 end in
    run_select BrInspect s = Some (Continue, s')
    /\ inspectPods d0 (srv (wld s)) = (e1, d1, srv1)
    /\ ensurePods (apiObject d1) d1 srv1' = (e2, dep s', srv2)
    /\ calls (wld s')
       = calls (wld s)
         ++ [CallInspectPods]
         ++ failureEvents "Pod inspection failed" e1 (apiObject d1)
         ++ [CallEnsurePods]
         ++ failureEvents "Pod creation failed" e2 (apiObject (dep s'))
    /\ List.filter isPublish (skipn (length (calls (wld s))) (calls (wld s'))) = []
    /\ exists ls,
         logs (wld s') = logs (wld s) ++ ls
         /\ Forall (fun l => logMsg l = "Failed to record event" /\ logLevel l = LError) ls
         /\ (length ls
             <= length (failureEvents "Pod inspection failed" e1 (apiObject d1))
                + length (failureEvents "Pod creation failed" e2 (apiObject (dep s'))))%nat.
Proof.
  intros Hready d0. unfold run_select. rewrite Hready. fold d0.
  set (x := {| dep := d0; wld := wld s |}).
  destruct (run_inspect_trace x) as (e1 & d1 & srv1 & e2 & srv2 & Hins & Hens & Hcalls).
  destruct (run_inspect_effects x) as (Ho & cs & ls & Hc & _ & _ & _ & Hl & Hls & Hlen).
  destruct (run_inspect x) as [o s'] eqn:Hrun. simpl in *. subst o.
  exists s', e1, d1, srv1, e2, srv2. cbv zeta.
  split; [reflexivity|]. split; [exact Hins|]. split; [exact Hens|]. split; [exact Hcalls|].
  split.
  { rewrite Hcalls, drop_app_length. by destruct e1, e2. }
  exists ls. split; [exact Hl|]. split; [exact Hls|].
  assert (Hcs : cs = [CallInspectPods]
                     ++ failureEvents "Pod inspection failed" e1 (apiObject d1)
                     ++ [CallEnsurePods]
                     ++ failureEvents "Pod creation failed" e2 (apiObject (dep s'))).
  { rewrite Hc in Hcalls. by apply app_inv_head in Hcalls. }
  rewrite Hcs in Hlen. destruct e1, e2; simpl in *; lia.
Qed.

End MoreWorker.

Lemma pod_event_burst_arms_once_witness :
  let evs := [Fake.podEvent eventPodAdded; Fake.podEvent eventPodUpdated;
              Fake.podEvent eventPodDeleted] in
  let loop := run_loop (U := Fake.causeUtil) (C := Fake.cluster)
                       (R := Fake.resources None None None None None)
                       (B := Fake.backoff 1) in
  exists s1 s2 s3,
    sendAll evs Fake.running = Some s1
    /\ loop [BrEvent; BrEvent; BrEvent] s1 = Some (Continue, s2)
    /\ trigger.pending (inspectTrigger (dep s2)) = true
    /\ loop [BrEvent; BrEvent; BrEvent; BrInspect; BrInspect] s1 = None
    /\ loop [BrEvent; BrInspect; BrEvent; BrInspect; BrEvent; BrInspect] s1
       = Some (Continue, s3)
    /\ eventCh (dep s3) = []
    /\ trigger.pending (inspectTrigger (dep s3)) = false.
Proof.
  intros evs loop.
  set (s1 := {| dep := set_eventCh evs (dep Fake.running); wld := wld Fake.running |}).
  assert (Hrun : exists s3,
             loop [BrEvent; BrInspect; BrEvent; BrInspect; BrEvent; BrInspect] s1
             = Some (Continue, s3)) by (eexists; vm_compute; reflexivity).
  destruct Hrun as [s3 Hrun].
  destruct (pod_event_burst_arms_once
              (U := Fake.causeUtil) (C := Fake.cluster)
              (R := Fake.resources None None None None None) (B := Fake.backoff 1)
              evs Fake.running s1)
    as (_ & (s2 & Hloop & _ & Hp & _) & Hany).
  - discriminate.
  - apply Forall_cons; split; [left; reflexivity|].
    apply Forall_cons; split; [right; left; reflexivity|].
    apply Forall_cons; split; [right; right; reflexivity|]. constructor.
  - reflexivity.
  - reflexivity.
  - exists s1, s2, s3. split; [reflexivity|]. split; [exact Hloop|]. split; [exact Hp|].
    split; [reflexivity|]. split; [exact Hrun|].
    destruct (Hany ltac:(by intros d f) ltac:(by intros o' d f)
                   [BrEvent; BrInspect; BrEvent; BrInspect; BrEvent; BrInspect] Continue s3)
      as (_ & Hq & _ & Hp3).
    + repeat (apply Forall_cons; split; [discriminate|]). constructor.
    + exact Hrun.
    + split; [exact Hq | exact Hp3].
Defined.

Lemma run_select_inspect_never_stops_witness :
  let boom := StatusError Other "pods is forbidden" in
  let s := {| dep := set_inspectTrigger {| trigger.pending := true |} (dep Fake.running);
              wld := wld Fake.running |} in
  exists s',
    run_select (U := Fake.causeUtil) (C := Fake.cluster)
               (R := Fake.resources None None None (Some boom) (Some boom))
               (B := Fake.backoff 1) BrInspect s
    = Some (Continue, s')
    /\ calls (wld s')
       = [CallInspectPods;
          CallCreateEvent (NewErrorEvent "Pod inspection failed" boom (apiObject (dep s)));
          CallEnsurePods;
          CallCreateEvent (NewErrorEvent "Pod creation failed" boom (apiObject (dep s)))].
Proof.
  intros boom s.
  destruct (run_select_inspect_never_stops
              (U := Fake.causeUtil) (C := Fake.cluster)
              (R := Fake.resources None None None (Some boom) (Some boom))
              (B := Fake.backoff 1) s)
    as (s' & e1 & d1 & srv1 & e2 & srv2 & Hrun & Hins & Hens & Hcalls & _).
  - reflexivity.
  - exists s'. split; [exact Hrun|].
    injection Hins as <- <- <-. injection Hens as <- Hdep <-.
    rewrite Hcalls, <- Hdep. reflexivity.
Defined.

Section MoreStartup.

Context {U : Util} {Srv : Type} {C : Cluster Srv} {R : Resources Srv} {B : Backoff}.

(** X16. When the four startup steps succeed, [run] sets the state to
    [Running] and enters the event loop whether or not the status can
    be published: a failed update is only logged as a warning.  The
    steps were called once each, in order, followed by at most one
    update request, which carries [Running]. *)
Theorem run_startup_reaches_loop (s s4 : St Srv) :
  startupPrefix 4 s = Some s4 ->
  exists s',
    run_startup s = (true, s')
    /\ (forall sched, run sched s = run_loop sched s')
    /\ status (dep s') = set_State DeploymentStateRunning (status (dep s4))
    /\ eventCh (dep s') = eventCh (dep s4)
    /\ stopCh (dep s') = stopCh (dep s4)
    /\ inspectTrigger (dep s') = inspectTrigger (dep s4)
    /\ (exists cs,
          calls (wld s') = calls (wld s) ++ startupCalls ++ cs
          /\ (cs = []
              \/ cs = [CallUpdate (Namespace (apiObject (dep s4)))
                         (with_Status (set_State DeploymentStateRunning (status (dep s4)))
                                      (apiObject (dep s4)))]))
    /\ (exists ls,
          logs (wld s') = logs (wld s) ++ ls ++ [logLine LInfo None "start running..."]
          /\ (ls = []
              \/ exists e, ls = [logLine LWarn (Some (updateError e))
                                   "update initial CR status failed"])).
Proof.
  intros Hpre.
  destruct (startupPrefix_calls 4 s s4 ltac:(lia) Hpre) as [Hc Hl].
  change (firstn 4 startupCalls) with startupCalls in Hc.
  pose proof (run_startup_after_steps s s4 Hpre) as Hafter. cbv zeta in Hafter.
  set (s5 := {| dep := set_status (set_State DeploymentStateRunning (status (dep s4))) (dep s4);
                wld := wld s4 |}) in *.
  assert (Hrun : forall s', run_startup s = (true, s') ->
                            forall sched, run sched s = run_loop sched s').
  { intros s' Hs' sched. unfold run. by rewrite Hs'. }
  destruct (updateCRStatus_cases s5) as [Hu | [(e & srv1 & Hu) | (o & srv1 & Hu)]];
    rewrite Hu in Hafter; eexists; (split; [exact Hafter|]);
    (split; [exact (Hrun _ Hafter)|]); clear Hafter Hrun Hu.
  - cbn. rewrite Hc, Hl. split_and!; try reflexivity.
    + exists []. split; [|by left].
      first [reflexivity | f_equal; symmetry; apply app_nil_r].
    + exists []. auto.
  - cbn. rewrite Hc, Hl. split_and!; try reflexivity.
    + exists [CallUpdate (Namespace (apiObject (dep s4)))
                (with_Status (set_State DeploymentStateRunning (status (dep s4)))
                             (apiObject (dep s4)))].
      split; [by rewrite <- app_assoc | by right].
    + exists [logLine LWarn (Some (updateError e)) "update initial CR status failed"].
      split; [by rewrite <- !app_assoc | right; by exists e].
  - cbn. rewrite Hc, Hl. split_and!; try reflexivity.
    + exists [CallUpdate (Namespace (apiObject (dep s4)))
                (with_Status (set_State DeploymentStateRunning (status (dep s4)))
                             (apiObject (dep s4)))].
      split; [by rewrite <- app_assoc | by right].
    + exists []. auto.
Qed.

Lemma run_select_outcome (b : Branch) (s s' : St Srv) (o : Outcome) :
  run_select b s = Some (o, s') ->
  match o with
  | Continue => True
  | Return => stopCh (dep s') = true /\ s' = s
  | Panic msg => exists tag, ~ knownEventType tag /\ msg = "unknown event type" +:+ tag
  end
  /\ exists cs ls,
       calls (wld s') = calls (wld s) ++ cs
       /\ List.filter isPublish cs = []
       /\ logs (wld s') = logs (wld s) ++ ls
       /\ Forall (fun l => logMsg l = "Failed to record event" /\ logLevel l = LError) ls.
Proof.
  assert (Hnone : forall s0 : St Srv,
             exists cs ls,
               calls (wld s0) = calls (wld s0) ++ cs
               /\ List.filter isPublish cs = []
               /\ logs (wld s0) = logs (wld s0) ++ ls
               /\ Forall (fun l => logMsg l = "Failed to record event" /\ logLevel l = LError) ls).
  { intros s0. exists [], []. rewrite !app_nil_r. auto. }
  destruct b; unfold run_select.
  - destruct (stopCh (dep s)) eqn:Hstop; [|discriminate].
    intros [= <- <-]. split; [by split | apply Hnone].
  - destruct (eventCh (dep s)) as [|event rest]; [discriminate|].
    set (s1 := {| dep := set_eventCh rest (dep s); wld := wld s |}).
    destruct (decide (knownEventType (evType event))) as [[Ht|Ht]|Hno].
    + rewrite run_event_updated by exact Ht. intros [= <- <-].
      split; [exact I | apply (Hnone s1)].
    + rewrite run_event_pod by exact Ht. intros [= <- <-].
      split; [exact I | apply (Hnone s1)].
    + rewrite run_event_unknown by exact Hno. intros [= <- <-].
      split; [by exists (evType event) | apply (Hnone s1)].
  - destruct (trigger.DoneReady (inspectTrigger (dep s))); [|discriminate].
    match goal with |- context [run_inspect ?x] =>
      destruct (run_inspect_effects x) as (Ho & cs & ls & Hc & _ & Hp & _ & Hl & Hls & _);
      destruct (run_inspect x) as [o' s'']
    end.
    simpl in *. intros [= <- <-]. subst o'. split; [exact I|]. exists cs, ls. auto.
  - unfold_M. simpl. intros [= <- <-]. split; [exact I|]. exists [], [].
    simpl. rewrite !app_nil_r. auto.
Qed.

(** X17. However its [select]s fall out, the event loop returns only
    with the stop signal closed and panics only on an event tag it does
    not know; it never reports a failure of the deployment and never
    sends an update or a fetch of the status itself, and the only lines
    it logs are failures to record an event. *)
Theorem run_loop_outcome (sched : list Branch) (s s' : St Srv) (o : Outcome) :
  run_loop sched s = Some (o, s') ->
  match o with
  | Continue => True
  | Return => stopCh (dep s') = true
  | Panic msg => exists tag, ~ knownEventType tag /\ msg = "unknown event type" +:+ tag
  end
  /\ exists cs ls,
       calls (wld s') = calls (wld s) ++ cs
       /\ List.filter isPublish cs = []
       /\ logs (wld s') = logs (wld s) ++ ls
       /\ Forall (fun l => logMsg l = "Failed to record event" /\ logLevel l = LError) ls.
Proof.
  revert s. induction sched as [|b sched IH]; intros s; cbn [run_loop].
  - intros [= <- <-]. split; [exact I|]. exists [], []. rewrite !app_nil_r. auto.
  - destruct (run_select b s) as [[o1 s1]|] eqn:Hsel; [|discriminate].
    destruct (run_select_outcome b s s1 o1 Hsel) as (Ho1 & cs1 & ls1 & Hc1 & Hp1 & Hl1 & Hls1).
    destruct o1.
    + intros Hrest.
      destruct (IH s1 Hrest) as (Ho & cs & ls & Hc & Hp & Hl & Hls).
      split; [exact Ho|]. exists (cs1 ++ cs), (ls1 ++ ls).
      rewrite Hc, Hc1, Hl, Hl1, !app_assoc, List.filter_app, Hp1, Hp.
      split_and!; auto. by apply Forall_app.
    + intros [= <- <-]. split; [apply Ho1|]. exists cs1, ls1. auto.
    + intros [= <- <-]. split; [apply Ho1|]. exists cs1, ls1. auto.
Qed.

End MoreStartup.

Lemma run_startup_reaches_loop_witness :
  let s := Fake.state
             (Fake.deployment (Fake.object "1" (Fake.statusOf "" Fake.threeMembers))
                              (Fake.statusOf "" Fake.threeMembers) [] false)
             {| Fake.updateReplies := [inr (StatusError Other "connection refused")];
                Fake.getReplies := [] |} in
  exists s',
    run_startup (U := Fake.causeUtil) (C := Fake.cluster)
                (R := Fake.resources None None None None None) (B := Fake.backoff 1) s
    = (true, s')
    /\ State (status (dep s')) = api.DeploymentStateRunning.
Proof.
  intros s.
  destruct (run_startup_reaches_loop
              (U := Fake.causeUtil) (C := Fake.cluster)
              (R := Fake.resources None None None None None) (B := Fake.backoff 1)
              s
              (requested CallEnsurePods (srv (wld s))
                 (requested CallEnsurePVCs (srv (wld s))
                    (requested CallCreateInitialMembers (srv (wld s))
                       (requested CallCreateServices (srv (wld s)) s)))))
    as (s' & Hrun & _ & Hst & _).
  - reflexivity.
  - exists s'. split; [exact Hrun|]. by rewrite Hst.
Defined.

Lemma run_loop_outcome_witness :
  let s := {| dep := set_eventCh [Fake.podEvent "PodEvicted"] (dep Fake.running);
              wld := wld Fake.running |} in
  exists s' tag,
    run_loop (U := Fake.causeUtil) (C := Fake.cluster)
             (R := Fake.resources None None None None None) (B := Fake.backoff 1)
             [BrTimer; BrEvent; BrInspect] s
    = Some (Panic ("unknown event type" +:+ tag), s')
    /\ ~ knownEventType tag.
Proof.
  intros s.
  destruct (run_loop_outcome
              (U := Fake.causeUtil) (C := Fake.cluster)
              (R := Fake.resources None None None None None) (B := Fake.backoff 1)
              [BrTimer; BrEvent; BrInspect] s
              {| dep := set_inspectTrigger {| trigger.pending := true |} (dep Fake.running);
                 wld := wld Fake.running |}
              (Panic ("unknown event type" +:+ "PodEvicted")))
    as [(tag & Hno & Hmsg) _].
  - reflexivity.
  - eexists _, tag. split; [rewrite <- Hmsg; reflexivity | exact Hno].
Defined.

Section MoreClock.

Context {U : Util} {Srv : Type} {C : Cluster Srv} {R : Resources Srv} {B : Backoff}.

(** X18. On an idle deployment (nothing queued, not stopped, trigger
    not armed) with no event to come, the only way two passes of the
    loop can go is the timer and then the inspection: the loop wakes
    [inspectionInterval] after it began to wait, arms the trigger, and
    at that same time inspects the pods and ensures them. *)
Theorem idle_timer_then_inspection (T : Timed) :
  readyNow (dep (tst T)) = false ->
  arrivals T = [] ->
  (exists T' cs,
     run_loop_at [BrTimer; BrInspect] T = Some (Continue, T')
     /\ now T' = now T + inspectionInterval
     /\ calls (wld (tst T')) = calls (wld (tst T)) ++ cs
     /\ List.filter (fun c => negb (isCreateEvent c)) cs = [CallInspectPods; CallEnsurePods])
  /\ (forall b1 b2 o T',
        run_loop_at [b1; b2] T = Some (o, T') ->
        b1 = BrTimer /\ b2 = BrInspect /\ o = Continue
        /\ now T' = now T + inspectionInterval).
Proof.
  intros Hidle Harr.
  destruct (readyNow_false _ Hidle) as (Hstop & Hq & Hpend).
  destruct T as [[[ao st cf q sc [p]] w] t arr]. simpl in Hstop, Hq, Hpend, Harr. subst.
  set (T := {| tst := {| dep := {| apiObject := ao; status := st; config := cf;
                                   eventCh := []; stopCh := false;
                                   inspectTrigger := {| trigger.pending := false |} |};
                         wld := w |};
               now := t; arrivals := [] |}) in *.
  set (s1 := {| dep := set_inspectTrigger {| trigger.pending := true |} (dep (tst T));
                wld := wld (tst T) |}).
  set (T1 := {| tst := s1; now := now T + inspectionInterval; arrivals := [] |}).
  set (s2 := {| dep := set_inspectTrigger {| trigger.pending := false |} (dep (tst T));
                wld := wld (tst T) |}).
  assert (Hsecond : forall b2,
             run_select_at b2 T1
             = match b2 with
               | BrInspect =>
                   Some (fst (run_inspect s2),
                         {| tst := snd (run_inspect s2);
                            now := now T + inspectionInterval;
                            arrivals := [] |})
               | _ => None
               end).
  { intros b2. destruct b2.
    - reflexivity.
    - reflexivity.
    - unfold run_select_at, wakeTime, readyNow. simpl.
      match goal with |- context [run_inspect ?x] =>
        change (run_inspect x) with (run_inspect s2) end.
      by destruct (run_inspect s2).
    - unfold run_select_at, wakeTime, readyNow. simpl.
      destruct (Z.leb_spec (t + inspectionInterval + inspectionInterval)
                           (t + inspectionInterval)) as [Hle|_]; [|reflexivity].
      unfold inspectionInterval, Minute, Second in Hle. lia. }
  destruct (run_inspect_effects s2) as (Ho & cs & ls & Hc & Hf & _).
  split.
  - exists {| tst := snd (run_inspect s2); now := now T + inspectionInterval;
              arrivals := [] |}, cs.
    cbn [run_loop_at].
    rewrite (idle_pass_fires_timer T BrTimer Hidle eq_refl). fold s1. fold T1.
    rewrite (Hsecond BrInspect), Ho.
    split; [reflexivity|]. simpl. auto.
  - intros b1 b2 o T'. cbn [run_loop_at].
    rewrite (idle_pass_fires_timer T b1 Hidle eq_refl).
    destruct b1; try discriminate. fold s1. fold T1.
    rewrite (Hsecond b2). destruct b2; try discriminate.
    rewrite Ho. intros [= <- <-]. auto.
Qed.

End MoreClock.

Lemma idle_timer_then_inspection_witness :
  let T := {| tst := Fake.running; now := 0; arrivals := [] |} in
  exists T',
    run_loop_at (U := Fake.causeUtil) (C := Fake.cluster)
                (R := Fake.resources None None None None None) (B := Fake.backoff 1)
                [BrTimer; BrInspect] T
    = Some (Continue, T')
    /\ now T' = inspectionInterval.
Proof.
  intros T.
  destruct (idle_timer_then_inspection
              (U := Fake.causeUtil) (C := Fake.cluster)
              (R := Fake.resources None None None None None) (B := Fake.backoff 1) T)
    as [(T' & cs & Hrun & Hnow & _) _].
  - reflexivity.
  - reflexivity.
  - exists T'. split; [exact Hrun | exact Hnow].
Defined.

Section Convergence.

Context {U : Util} {Srv : Type} {C : Cluster Srv} {R : Resources Srv} {B : Backoff}.

Lemma FailsThen_retry (k : nat) (s s1 : St Srv) :
  FailsThen k s s1 ->
  let update := with_Status (set_State DeploymentStateFailed (status (dep s)))
                            (apiObject (dep s)) in
  (forall budget, retry_loop reportFailedStatus_op (k + budget) s
                  = retry_loop reportFailedStatus_op budget s1)
  /\ (forall budget, (budget < k)%nat ->
                     fst (retry_loop reportFailedStatus_op budget s) <> None)
  /\ calls (wld s1)
     = calls (wld s) ++ repeat (CallUpdate (Namespace (apiObject (dep s))) update) k
  /\ (exists ls, logs (wld s1) = logs (wld s) ++ ls
                 /\ length ls = k
                 /\ Forall (fun l => logLevel l = LWarn
                                     /\ logMsg l = "retry report status: fail to update") ls)
  /\ apiObject (dep s1) = apiObject (dep s)
  /\ (k <> 0%nat -> status (dep s1) = set_State DeploymentStateFailed (status (dep s))).
Proof.
  induction 1 as [s | k s s' e srv1 sF ns update Hne Hupd Hnf Hcf Hrest IH]; intros upd.
  - split; [reflexivity|]. split; [intros budget Hlt; lia|].
    split; [by rewrite app_nil_r|].
    split; [exists []; by rewrite app_nil_r|]. split; [reflexivity|].
    intros Hk. contradiction.
  - cbv zeta in IH. destruct IH as (Hretry & Hshort & Hc & (ls & Hl & Hlen & Hls) & Hobj & Hst).
    assert (Hop : reportFailedStatus_op s
                  = (Some (maskAny (updateError e)),
                     {| dep := dep sF;
                        wld := {| srv := srv1; logs := logs (wld s) ++ [updateWarning e];
                                  calls := calls (wld s) ++ [CallUpdate ns update] |} |})).
    { rewrite op_unfold. fold sF.
      rewrite (updateCRStatus_fails sF e srv1 Hne Hupd). fold ns update.
      rewrite Hnf, Hcf. reflexivity. }
    split_and!.
    + intros budget. simpl. rewrite Hop. apply Hretry.
    + intros budget Hlt. destruct budget as [|b]; cbn [retry_loop]; rewrite Hop.
      * discriminate.
      * apply Hshort. lia.
    + rewrite Hc. simpl. rewrite <- app_assoc. reflexivity.
    + exists (updateWarning e :: ls). rewrite Hl. simpl. rewrite <- app_assoc.
      split; [reflexivity|]. split; [by rewrite Hlen|].
      apply Forall_cons. by split.
    + rewrite Hobj. reflexivity.
    + intros _. destruct k as [|k].
      * inversion Hrest; subst. reflexivity.
      * rewrite Hst by discriminate. reflexivity.
Qed.

(** X19. When the update of a failure report fails [k] times in a
    row with errors that [k8sutil] takes for neither NotFound nor
    Conflict, and the attempt after that succeeds, then with room for
    [k] further attempts the retry loop ends in success: it has sent
    the same update request, made from the cached object, [k] times
    before the one that succeeded, logged [k] warnings, fetched nothing
    and kept the cached object until the store's answer replaced it.
    With room for fewer than [k] further attempts it ends in an
    error. *)
Theorem reportFailedStatus_converges (k : nat) (s s1 s2 : St Srv) :
  let ns := Namespace (apiObject (dep s)) in
  let update := with_Status (set_State DeploymentStateFailed (status (dep s)))
                            (apiObject (dep s)) in
  FailsThen k s s1 ->
  reportFailedStatus_op s1 = (None, s2) ->
  ((k <= attemptsWithin oneYear)%nat ->
   Retry reportFailedStatus_op oneYear s = (None, s2))
  /\ ((attemptsWithin oneYear < k)%nat ->
      fst (Retry reportFailedStatus_op oneYear s) <> None)
  /\ calls (wld s1) = calls (wld s) ++ repeat (CallUpdate ns update) k
  /\ List.filter isGet (calls (wld s1)) = List.filter isGet (calls (wld s))
  /\ (exists ls, logs (wld s1) = logs (wld s) ++ ls
                 /\ length ls = k
                 /\ Forall (fun l => logLevel l = LWarn
                                     /\ logMsg l = "retry report status: fail to update") ls)
  /\ apiObject (dep s1) = apiObject (dep s).
Proof.
  intros ns update Hk Hop.
  destruct (FailsThen_retry k s s1 Hk) as (Hretry & Hshort & Hcalls & Hlogs & Hobj & _).
  split_and!.
  - intros Hbudget. unfold Retry.
    replace (attemptsWithin oneYear) with (k + (attemptsWithin oneYear - k))%nat by lia.
    rewrite Hretry. destruct (attemptsWithin oneYear - k)%nat; simpl; by rewrite Hop.
  - intros Hbudget. unfold Retry. by apply Hshort.
  - exact Hcalls.
  - rewrite Hcalls, List.filter_app.
    assert (Hnone : forall n, List.filter isGet (repeat (CallUpdate ns update) n) = []).
    { intros n. induction n as [|n IHn]; [reflexivity | exact IHn]. }
    by rewrite Hnone, app_nil_r.
  - exact Hlogs.
  - exact Hobj.
Qed.

End Convergence.

Lemma reportFailedStatus_converges_witness :
  let running := Fake.statusOf api.DeploymentStateRunning Fake.threeMembers in
  let failed := Fake.statusOf api.DeploymentStateFailed Fake.threeMembers in
  let timeout := StatusError Other "etcdserver: request timed out" in
  let s := reporting conflictError [inl (Fake.object "2" running)]
                     [inr timeout; inl (Fake.object "4" failed)] in
  exists s2,
    Retry (B := Fake.backoff 2)
          (reportFailedStatus_op (U := Fake.causeUtil) (C := Fake.cluster)) oneYear s
    = (None, s2)
    /\ apiObject (dep s2) = Fake.object "4" failed.
Proof.
  intros running failed timeout s.
  set (s1 := {| dep := set_status failed (dep s);
                wld := {| srv := {| Fake.updateReplies := [inl (Fake.object "4" failed)];
                                    Fake.getReplies := [inl (Fake.object "2" running)] |};
                          logs := [updateWarning (U := Fake.causeUtil) conflictError;
                                   updateWarning (U := Fake.causeUtil) timeout];
                          calls := [CallUpdate "default" (with_Status failed (Fake.object "1" running));
                                    CallUpdate "default" (with_Status failed (Fake.object "1" running))]
                       |} |}).
  destruct (reportFailedStatus_converges
              (U := Fake.causeUtil) (C := Fake.cluster) (B := Fake.backoff 2)
              2 s s1
              (snd (reportFailedStatus_op (U := Fake.causeUtil) (C := Fake.cluster) s1)))
    as (Hretry & _).
  - eapply (fails_more (U := Fake.causeUtil) (C := Fake.cluster) 1 s s1 conflictError);
      [discriminate | reflexivity | reflexivity | reflexivity |].
    eapply (fails_more (U := Fake.causeUtil) (C := Fake.cluster) 0 _ s1 timeout);
      [discriminate | reflexivity | reflexivity | reflexivity |].
    apply fails_none.
  - reflexivity.
  - eexists. split; [apply Hretry; simpl; lia | reflexivity].
Defined.
